(** * EmitC MHLO runtime catalogue ([lib/Target/Cpp/emitc_mhlo.h])

    A shallow embedding of the sequence overloads of namespace [mhlo] and
    the properties of the catalogue that are stated about them.

    Conventions of the embedding.
    - [std::vector<T>] is [list T]; [v.size()] is [length v]; [v[i]] is
      a bounds-sensitive read or write ([read], [write]): outside the
      bounds the C++ behaviour is undefined.
    - A call ends in one of three ways ([outcome]): it returns a value,
      it leaves by an exception, or its behaviour is undefined.  An
      operator on a built-in type cannot throw: it has a value or is
      undefined ([option]).
    - Integral element types are values in [Z] together with a
      descriptor ([int_type]) giving signedness and width; conversions
      to a narrower integral type wrap modulo [2^width]; [int] is 32 bits
      wide and [int64_t] 64 bits.
    - [double] is the kernel's binary64 ([PrimFloat]). *)

From Stdlib Require Import ZArith Floats.
From stdpp Require Import base tactics option list.

Local Open Scope Z_scope.

(** ** Outcomes of a call *)

(** Exceptions a call can leave by.  [LengthError] is [std::length_error],
    thrown by the sizing constructor of [std::vector] for a count above
    [max_size()].  The remaining three are the failure kinds the catalogue's
    description names. *)
Inductive exception : Set :=
  | LengthError
  | LengthMismatch
  | DivisionByZero
  | UnsupportedConversion.

Inductive outcome (A : Type) : Type :=
  | Returns (a : A)
  | Throws (e : exception)
  | Undefined.

Arguments Returns {A} a.
Arguments Throws {A} e.
Arguments Undefined {A}.

#[export] Instance outcome_ret : MRet outcome := fun A a => Returns a.

#[export] Instance outcome_bind : MBind outcome := fun A B k m =>
  match m with
  | Returns a => k a
  | Throws e => Throws e
  | Undefined => Undefined
  end.

(** An operator's result as the outcome of the enclosing call. *)
Definition of_option {A : Type} (o : option A) : outcome A :=
  match o with
  | Some a => Returns a
  | None => Undefined
  end.

(** ** [std::vector] *)

Section Vector.
Context {A : Type}.

(** [v[i]] as an rvalue. *)
Definition read (v : list A) (i : nat) : outcome A :=
  match v !! i with
  | Some a => Returns a
  | None => Undefined
  end.

(** [v[i] = a]. *)
Definition write (v : list A) (i : nat) (a : A) : outcome (list A) :=
  if decide (i < length v)%nat then Returns (<[i:=a]> v) else Undefined.

(** [v.reserve(n)]: capacity only; the elements and the size stay. *)
Definition reserve (v : list A) (n : nat) : list A := v.

(** [v.insert(v.begin() + pos, first, last)] for the range [ys]. *)
Definition insert_range (v : list A) (pos : nat) (ys : list A) : list A :=
  take pos v ++ ys ++ drop pos v.
End Vector.

(** ** Control *)

(** [for (size_t i = start; i < start + count; i++) s = body(i, s);] *)
Fixpoint for_from {St : Type} (start count : nat)
    (body : nat -> St -> outcome St) (s : St) : outcome St :=
  match count with
  | O => Returns s
  | S count' => s' ← body start s; for_from (S start) count' body s'
  end.

(** [for (size_t i = 0; i < bound; i++) s = body(i, s);] *)
Definition for_loop {St : Type} (bound : nat)
    (body : nat -> St -> outcome St) (s : St) : outcome St :=
  for_from 0 bound body s.

(** [std::transform(first1, last1, first2, d_first, op)] with [xs] the
    range [first1, last1) still to visit, and [first2], [d_first] at
    offset [i] into [y] and [z]. *)
Fixpoint transform_from {A B C : Type} (xs : list A) (y : list B) (z : list C)
    (i : nat) (op : A -> B -> option C) : outcome (list C) :=
  match xs with
  | [] => Returns z
  | a :: xs' =>
      b ← read y i;
      c ← of_option (op a b);
      z' ← write z i c;
      transform_from xs' y z' (S i) op
  end.

(** [std::transform(x.begin(), x.end(), y.begin(), z.begin(), op)] *)
Definition transform {A B C : Type} (x : list A) (y : list B) (z : list C)
    (op : A -> B -> option C) : outcome (list C) :=
  transform_from x y z 0 op.

(** [std::accumulate(first, last, init, op)]: the accumulator has the type
    of [init]. *)
Fixpoint accumulate {A B : Type} (xs : list B) (init : A)
    (op : A -> B -> option A) : outcome A :=
  match xs with
  | [] => Returns init
  | b :: xs' => init' ← of_option (op init b); accumulate xs' init' op
  end.

(** ** Element types *)

(** The operations of an element type [T] that the catalogue reaches
    through [<functional>]: [T()], [std::plus<>], [std::minus<>],
    [std::multiplies<>], [std::divides<>] and the six comparison functors.
    An arithmetic operation whose C++ behaviour is undefined (signed
    overflow, integer division by zero) has no value. *)
Class ElementType (T : Type) := {
  elt_zero : T;
  std_plus : T -> T -> option T;
  std_minus : T -> T -> option T;
  std_multiplies : T -> T -> option T;
  std_divides : T -> T -> option T;
  std_equal_to : T -> T -> bool;
  std_not_equal_to : T -> T -> bool;
  std_less : T -> T -> bool;
  std_less_equal : T -> T -> bool;
  std_greater : T -> T -> bool;
  std_greater_equal : T -> T -> bool
}.

(** *** Integral types *)

Record int_type : Set := IntType { is_signed : bool; bits : Z }.

Definition int8_t := IntType true 8.
Definition int16_t := IntType true 16.
Definition int32_t := IntType true 32.
Definition int64_t := IntType true 64.
Definition uint8_t := IntType false 8.
Definition uint16_t := IntType false 16.
Definition uint32_t := IntType false 32.
Definition uint64_t := IntType false 64.

(** [std::numeric_limits<T>::min()] and [max()]. *)
Definition int_min (ty : int_type) : Z :=
  if is_signed ty then - 2 ^ (bits ty - 1) else 0.

Definition int_max (ty : int_type) : Z :=
  if is_signed ty then 2 ^ (bits ty - 1) - 1 else 2 ^ bits ty - 1.

(** The fixed-width types of [<cstdint>]. *)
Definition standard (ty : int_type) : Prop :=
  bits ty = 8 \/ bits ty = 16 \/ bits ty = 32 \/ bits ty = 64.

Definition in_range (ty : int_type) (v : Z) : bool :=
  (int_min ty <=? v) && (v <=? int_max ty).

(** Conversion of an integer value to [ty]: the value modulo [2^bits]. *)
Definition wrap (ty : int_type) (v : Z) : Z :=
  if is_signed ty
  then (v + 2 ^ (bits ty - 1)) mod 2 ^ bits ty - 2 ^ (bits ty - 1)
  else v mod 2 ^ bits ty.

(** The result [r] (as a mathematical integer) of an arithmetic operator
    on two operands of type [ty], stored back into a [ty].  Operands
    narrower than [int] are promoted to [int]; overflow of a signed
    operation is undefined, an unsigned one wraps. *)
Definition int_arith (ty : int_type) (r : Z) : option Z :=
  if bits ty <? 32 then
    if in_range int32_t r then Some (wrap ty r) else None
  else if is_signed ty then
    if in_range ty r then Some r else None
  else Some (wrap ty r).

(** [a / b]: undefined for a zero divisor, else the quotient truncated
    towards zero. *)
Definition int_divides (ty : int_type) (a b : Z) : option Z :=
  if b =? 0 then None else int_arith ty (Z.quot a b).

Definition int_element (ty : int_type) : ElementType Z := {|
  elt_zero := 0;
  std_plus a b := int_arith ty (a + b);
  std_minus a b := int_arith ty (a - b);
  std_multiplies a b := int_arith ty (a * b);
  std_divides := int_divides ty;
  std_equal_to := Z.eqb;
  std_not_equal_to a b := negb (Z.eqb a b);
  std_less := Z.ltb;
  std_less_equal := Z.leb;
  std_greater a b := Z.ltb b a;
  std_greater_equal a b := Z.leb b a
|}.

(** *** [double] *)

Definition double_element : ElementType float := {|
  elt_zero := PrimFloat.zero;
  std_plus a b := Some (PrimFloat.add a b);
  std_minus a b := Some (PrimFloat.sub a b);
  std_multiplies a b := Some (PrimFloat.mul a b);
  std_divides a b := Some (PrimFloat.div a b);
  std_equal_to := PrimFloat.eqb;
  std_not_equal_to a b := negb (PrimFloat.eqb a b);
  std_less := PrimFloat.ltb;
  std_less_equal := PrimFloat.leb;
  std_greater a b := PrimFloat.ltb b a;
  std_greater_equal a b := PrimFloat.leb b a
|}.

(** *** [std::complex<T>] *)

Record complex (T : Type) : Type := Complex { re : T; im : T }.
Arguments Complex {T} re im.
Arguments re {T} c.
Arguments im {T} c.

(** ** Unary elementwise operations *)

Section Abs.
Context {T : Type}.

(** [std::abs] on [T] and on [std::complex<T>]. *)
Variable std_abs : T -> T.
Variable std_abs_complex : complex T -> T.

(** [std::vector<T> abs(std::vector<T> x)] *)
Definition abs (x : list T) : outcome (list T) :=
  let z := x in
  for_loop (length z)
    (fun i z => xi ← read x i; write z i (std_abs xi)) z.

(** [std::vector<T> abs(std::vector<std::complex<T>> x)] *)
Definition abs_complex (x : list (complex T)) : outcome (list T) :=
  let z := [] in
  let z := reserve z (length x) in
  for_loop (length z)
    (fun i z => xi ← read x i; write z i (std_abs_complex xi)) z.
End Abs.

(** The magnitude of a [std::complex<double>] by its defining formula. *)
Definition magnitude (c : complex float) : float :=
  PrimFloat.sqrt
    (PrimFloat.add (PrimFloat.mul (re c) (re c)) (PrimFloat.mul (im c) (im c))).

(** ** Binary elementwise operations and comparison *)

Section Elementwise.
Context {T : Type} {E : ElementType T}.

Definition add (x y : list T) : outcome (list T) :=
  let z := x in transform x y z std_plus.

Definition div (x y : list T) : outcome (list T) :=
  let z := x in transform x y z std_divides.

Definition mul (x y : list T) : outcome (list T) :=
  let z := x in transform x y z std_multiplies.

Definition sub (x y : list T) : outcome (list T) :=
  let z := x in transform x y z std_minus.

(** [compare<T, Compare>(x, y)]; [Compare<T>()] is the functor. *)
Definition compare (Compare : T -> T -> bool) (x y : list T)
    : outcome (list bool) :=
  let z := replicate (length x) false in
  transform x y z (fun a b => Some (Compare a b)).

(** [select(s, x, y)] *)
Definition select (s : list bool) (x y : list T) : outcome (list T) :=
  let z := replicate (length x) elt_zero in
  for_loop (length z)
    (fun i z =>
       si ← read s i;
       v ← (if si : bool then read x i else read y i);
       write z i v) z.
End Elementwise.

(** ** Structural operations *)

Section Structural.
Context {T : Type}.

Definition broadcast_in_dim (x : list T) (n : nat) : outcome (list T) :=
  let z := [] in
  for_loop n (fun _ z => Returns (insert_range z (length z) x)) z.

Definition concatenate (x y : list T) : list T :=
  let z := x in
  insert_range z (length z) y.
End Structural.

(** ** Random operations *)

(** [std::vector<T> v(n)] with [n] an [int64_t]: the count is [n] converted
    to [size_t]; above [max_size()] the constructor throws
    [std::length_error].  [max_size()] is the largest [ptrdiff_t] divided
    by the size of an element. *)
Definition sizeof (ty : int_type) : Z := Z.max 1 (bits ty / 8).

Definition max_size (ty : int_type) : Z := int_max int64_t / sizeof ty.

Definition vector_sized (ty : int_type) (n : Z) : outcome (list Z) :=
  let count := wrap uint64_t n in
  if count <=? max_size ty then Returns (replicate (Z.to_nat count) 0)
  else Throws LengthError.

(** [std::accumulate(shape.begin(), shape.end(), 1,
    std::multiplies<int64_t>())]: the initial value [1] is an [int], so the
    accumulator is an [int]; each step multiplies in [int64_t] and stores
    the product back into the [int]. *)
Definition multiply_into_int (init d : Z) : option Z :=
  p ← std_multiplies (ElementType := int_element int64_t) init d;
  Some (wrap int32_t p).

Definition sample_count (shape : list Z) : outcome Z :=
  accumulate shape 1 multiply_into_int.

Section Rng.
(** The engine [std::mt19937]: its state, its construction from the
    value read from [std::random_device], and a draw of
    [std::uniform_int_distribution<T>(a, b)] from it, which yields the
    sample and the advanced engine. *)
Context {Engine : Type}.
Variable mt19937 : Z -> Engine.
Variable draw : Z -> Z -> Engine -> Z * Engine.

(** [result[i] = distribution(gen);] for the distribution on [a, b]. *)
Definition sample (a b : Z) (i : nat) (st : list Z * Engine)
    : outcome (list Z * Engine) :=
  let '(result, gen) := st in
  let '(v, gen) := draw a b gen in
  result ← write result i v;
  Returns (result, gen).

(** [rng_uniform<T>(low, high, shape)] for an integral [T]; [rd] is the
    value the call reads from [std::random_device].  The distribution is
    constructed on [low, high - 1], which requires [low <= high - 1]; the
    loop compares its [size_t] index with [n] converted to [size_t]. *)
Definition rng_uniform (ty : int_type) (low high : Z) (shape : list Z)
    (rd : Z) : outcome (list Z) :=
  n ← sample_count shape;
  let gen := mt19937 rd in
  b ← of_option (int_arith ty (high - 1));
  if decide (low <= b) then
    result ← vector_sized ty n;
    r ← for_loop (Z.to_nat (wrap uint64_t n)) (sample low b) (result, gen);
    Returns (fst r)
  else Undefined.

(** [rng_bit_generator<T, Algorithm, N>(state)] *)
Definition rng_bit_generator (ty : int_type) (Algorithm : Z) (N : Z)
    (state : list Z) (rd : Z) : outcome (list Z * list Z) :=
  let newState := state in
  let shape := [N] in
  let min := int_min ty in
  let max := int_max ty in
  resultVector ← rng_uniform ty min max shape rd;
  Returns (newState, resultVector).
End Rng.

(** A concrete engine: a linear congruential state, the sample taken from
    the state reduced into [a, b]. *)
Definition lcg_seed (rd : Z) : Z := rd mod 2 ^ 32.

Definition lcg_draw (a b : Z) (g : Z) : Z * Z :=
  let g' := (1103515245 * g + 12345) mod 2 ^ 31 in
  (a + g' mod (b - a + 1), g').

(** ** Further operations of the catalogue *)

(** [std::max(a, b)] is [(a < b) ? b : a]; [std::min(a, b)] is
    [(b < a) ? b : a]. *)
Definition std_max {T : Type} {E : ElementType T} (a b : T) : T :=
  if std_less a b then b else a.

Definition std_min {T : Type} {E : ElementType T} (a b : T) : T :=
  if std_less b a then b else a.

Section Unary.
(** [std::cos], [std::sin] and [std::sqrt] on [double].  The three
    overloads are embedded at the element type [double], where the
    library function takes and returns the element type; on an integral
    [T] the [double] result would be converted back to [T]. *)
Variable std_cos : float -> float.
Variable std_sin : float -> float.
Variable std_sqrt : float -> float.

(** [std::vector<T> cos(std::vector<T> x)] *)
Definition cos (x : list float) : outcome (list float) :=
  let z := x in
  for_loop (length z)
    (fun i z => xi ← read x i; write z i (std_cos xi)) z.

(** [std::vector<T> sin(std::vector<T> x)] *)
Definition sin (x : list float) : outcome (list float) :=
  let z := x in
  for_loop (length z)
    (fun i z => xi ← read x i; write z i (std_sin xi)) z.

(** [std::vector<T> sqrt(std::vector<T> x)] *)
Definition sqrt (x : list float) : outcome (list float) :=
  let z := x in
  for_loop (length z)
    (fun i z => xi ← read x i; write z i (std_sqrt xi)) z.
End Unary.

(** [convert<T1, T2>(std::vector<T2> x)] between integral types:
    [static_cast<T1>] keeps a value [T1] can represent and reduces any
    other modulo [2^bits]. *)
Definition convert (T1 : int_type) (x : list Z) : outcome (list Z) :=
  let z := replicate (length x) 0 in
  for_loop (length z)
    (fun i z => xi ← read x i; write z i (wrap T1 xi)) z.

Section Binary.
Context {T : Type} {E : ElementType T}.

(** [std::pow(a, b)] as it is stored into a [T]: on a floating-point [T]
    the value [std::pow] returns; on an integral [T] the [double] result
    converted back to [T], which has no value when it is out of the range
    of [T]. *)
Variable std_pow : T -> T -> option T.

Definition max (x y : list T) : outcome (list T) :=
  let z := x in transform x y z (fun a b => Some (std_max a b)).

Definition min (x y : list T) : outcome (list T) :=
  let z := x in transform x y z (fun a b => Some (std_min a b)).

Definition pow (x y : list T) : outcome (list T) :=
  let z := x in transform x y z std_pow.
End Binary.

(** ** Index-wise relations between sequences *)

(** [R] holds between the elements of [x], [y] and [z] at every index the
    three have in common. *)
Definition pointwise {A B C : Type} (R : A -> B -> C -> Prop)
    (x : list A) (y : list B) (z : list C) : Prop :=
  forall i a b c,
    x !! i = Some a -> y !! i = Some b -> z !! i = Some c -> R a b c.

(** * Properties *)

(** ** Outcomes *)

Lemma read_Returns {A : Type} (v : list A) (i : nat) (a : A) :
  read v i = Returns a <-> v !! i = Some a.
Proof. unfold read. destruct (v !! i); split; congruence. Qed.

Lemma read_in_bounds {A : Type} (v : list A) (i : nat) :
  (i < length v)%nat -> exists a, v !! i = Some a /\ read v i = Returns a.
Proof.
  intros Hi. destruct (lookup_lt_is_Some_2 v i Hi) as [a Ha].
  exists a. split; [done|]. by apply read_Returns.
Qed.

Lemma read_out_of_bounds {A : Type} (v : list A) (i : nat) :
  (length v <= i)%nat -> read v i = Undefined.
Proof. intros Hi. unfold read. by rewrite lookup_ge_None_2. Qed.

Lemma write_in_bounds {A : Type} (v : list A) (i : nat) (a : A) :
  (i < length v)%nat -> write v i a = Returns (<[i:=a]> v).
Proof. intros Hi. unfold write. by rewrite decide_True. Qed.

Lemma write_not_Throws {A : Type} (v : list A) (i : nat) (a : A) e :
  write v i a <> Throws e.
Proof. unfold write. by case_decide. Qed.

(** ** Loops *)

Section Loops.
Context {St : Type}.
Implicit Types (body : nat -> St -> outcome St) (s : St).


(** An iteration that is undefined whatever the state makes the loop
    undefined, when no iteration throws. *)
Lemma for_from_Undefined body start count s k :
  (forall i s e, body i s <> Throws e) ->
  (k < count)%nat ->
  (forall s, body (start + k)%nat s = Undefined) ->
  for_from start count body s = Undefined.
Proof.
  intros Hthrow. revert start s k.
  induction count as [|count IH]; intros start s k Hk Hundef; [lia|].
  simpl. destruct k as [|k].
  - rewrite Nat.add_0_r in Hundef. by rewrite Hundef.
  - destruct (body start s) as [s'| e |] eqn:Hb; simpl; [|by destruct (Hthrow start s e)|done].
    apply (IH _ _ k); [lia|]. intros s0.
    replace (S start + k)%nat with (start + S k)%nat by lia.
    apply Hundef.
Qed.

(** Invariant rule: an invariant that every iteration re-establishes,
    and under which every iteration returns, holds when the loop ends,
    and the loop does end. *)
Lemma for_from_invariant (P : nat -> St -> Prop) body start count s :
  P start s ->
  (forall i s, (start <= i < start + count)%nat -> P i s ->
     exists s', body i s = Returns s' /\ P (S i) s') ->
  exists s', for_from start count body s = Returns s' /\ P (start + count)%nat s'.
Proof.
  revert start s.
  induction count as [|count IH]; intros start s HP Hbody; simpl.
  - exists s. rewrite Nat.add_0_r. auto.
  - destruct (Hbody start s) as (s1 & -> & HP1); [lia|done|]. simpl.
    destruct (IH (S start) s1) as (s' & Hs' & HP'); [done| |].
    + intros i s0 Hi. apply Hbody. lia.
    + exists s'. split; [done|].
      by replace (start + S count)%nat with (S start + count)%nat by lia.
Qed.
End Loops.

(** ** [std::transform] *)

Section Transform.
Context {A B C : Type} (op : A -> B -> option C).

Lemma transform_from_not_Throws (xs : list A) (y : list B) (z : list C) i e :
  transform_from xs y z i op <> Throws e.
Proof.
  revert z i. induction xs as [|a xs IH]; intros z i; simpl; [done|].
  unfold read. destruct (y !! i) as [b|]; simpl; [|done].
  destruct (op a b) as [c|]; simpl; [|done].
  unfold write. case_decide; simpl; [apply IH|done].
Qed.

(** A second range that ends before the first is read out of bounds. *)
Lemma transform_from_short (xs : list A) (y : list B) (z : list C) i :
  (i <= length y < i + length xs)%nat ->
  transform_from xs y z i op = Undefined.
Proof.
  revert z i. induction xs as [|a xs IH]; intros z i; simpl; [lia|]; intros Hy.
  unfold read. destruct (y !! i) as [b|] eqn:Hb; simpl; [|done].
  apply lookup_lt_Some in Hb.
  destruct (op a b) as [c|]; simpl; [|done].
  unfold write. case_decide; simpl; [|done].
  apply IH. lia.
Qed.

Lemma transform_from_Returns (xs : list A) (y : list B) (z : list C) i z' :
  length z = (i + length xs)%nat ->
  transform_from xs y z i op = Returns z' <->
  exists cs, z' = take i z ++ cs /\
    Forall3 (fun a b c => op a b = Some c) xs (take (length xs) (drop i y)) cs.
Proof.
  revert z i. induction xs as [|a xs IH]; intros z i Hz; simpl.
  - rewrite Nat.add_0_r in Hz. split.
    + intros [= <-]. exists []. rewrite take_ge by lia.
      rewrite app_nil_r. split; [done|constructor].
    + intros (cs & -> & Hcs). inversion Hcs; subst.
      rewrite take_ge by lia. by rewrite app_nil_r.
  - unfold read. destruct (y !! i) as [b|] eqn:Hb; simpl.
    2:{ split; [done|]. intros (cs & _ & Hcs).
        apply lookup_ge_None_1 in Hb. rewrite drop_ge in Hcs by done.
        inversion Hcs. }
    rewrite (drop_S _ _ _ Hb). simpl.
    destruct (op a b) as [c|] eqn:Hop; simpl.
    2:{ split; [done|]. intros (cs & _ & Hcs). inversion Hcs; congruence. }
    assert (Hi : (i < length z)%nat) by (simpl in Hz; lia).
    rewrite write_in_bounds by done. simpl.
    rewrite IH by (rewrite length_insert; simpl in Hz; lia).
    assert (Htake : take (S i) (<[i:=c]> z) = take i z ++ [c]).
    { rewrite (take_S_r _ _ c); [|by rewrite list_lookup_insert_eq].
      by rewrite take_insert_ge by lia. }
    split.
    + intros (cs & -> & Hcs). exists (c :: cs). split.
      * by rewrite Htake, <- app_assoc.
      * by constructor.
    + intros (cs & -> & Hcs). inversion Hcs as [|? ? c' ? ? cs' Hc' Hcs']; subst.
      exists cs'. split; [|done].
      rewrite Htake, <- app_assoc. simpl. congruence.
Qed.

(** The result of [std::transform] into a destination as long as the
    first range. *)
Lemma transform_Returns (x : list A) (y : list B) (z z' : list C) :
  length z = length x ->
  transform x y z op = Returns z' <->
  Forall3 (fun a b c => op a b = Some c) x (take (length x) y) z'.
Proof.
  intros Hz. unfold transform. rewrite transform_from_Returns by done.
  rewrite drop_0. simpl. split.
  - by intros (cs & -> & Hcs).
  - intros Hcs. by exists z'.
Qed.

Lemma transform_short (x : list A) (y : list B) (z : list C) :
  (length y < length x)%nat -> transform x y z op = Undefined.
Proof. intros Hy. apply transform_from_short. lia. Qed.

Lemma transform_cases (x : list A) (y : list B) (z : list C) :
  transform x y z op = Undefined \/ exists z', transform x y z op = Returns z'.
Proof.
  destruct (transform x y z op) as [z'|e|] eqn:Ht; eauto.
  by destruct (transform_from_not_Throws x y z 0%nat e).
Qed.
End Transform.


(** ** Structural operations *)

Lemma insert_range_end {T : Type} (z ys : list T) :
  insert_range z (length z) ys = z ++ ys.
Proof.
  unfold insert_range. rewrite take_ge, drop_ge by lia. by rewrite app_nil_r.
Qed.

Lemma broadcast_loop {T : Type} (x : list T) (count start : nat) (z : list T) :
  for_from start count (fun _ z => Returns (insert_range z (length z) x)) z
  = Returns (z ++ concat (replicate count x)).
Proof.
  revert start z. induction count as [|count IH]; intros start z; simpl.
  - by rewrite app_nil_r.
  - rewrite IH, insert_range_end. by rewrite <- app_assoc.
Qed.

(** C7. For every sequence [x] and every count [n], zero included,
    [broadcast_in_dim(x, n)] returns the concatenation of [n] copies of
    [x]; its length is [n] times the length of [x]; and
    [broadcast_in_dim([1,2], 3)] is [[1,2,1,2,1,2]]. *)
Theorem broadcast_in_dim_copies :
  (forall (T : Type) (x : list T) (n : nat),
     broadcast_in_dim x n = Returns (concat (replicate n x)) /\
     length (concat (replicate n x)) = (n * length x)%nat) /\
  broadcast_in_dim [1; 2] 3 = Returns [1; 2; 1; 2; 1; 2].
Proof.
  split; [|reflexivity].
  intros T x n. split.
  - unfold broadcast_in_dim, for_loop. by rewrite broadcast_loop.
  - induction n as [|n IH]; simpl; [done|].
    rewrite length_app, IH. lia.
Qed.

(** C8. [concatenate(x, y)] is the elements of [x] followed by those of
    [y]: the result has the two lengths added, holds [x] at the indices
    of [x] and [y] after them.  It is not commutative, and chaining it
    pairwise in the same order is associative. *)
Theorem concatenate_laws :
  (forall (T : Type) (x y : list T),
     concatenate x y = x ++ y /\
     length (concatenate x y) = (length x + length y)%nat /\
     (forall i, (i < length x)%nat -> concatenate x y !! i = x !! i) /\
     (forall i, concatenate x y !! (length x + i)%nat = y !! i)) /\
  (exists x y : list Z, concatenate x y <> concatenate y x) /\
  (forall (T : Type) (x y z : list T),
     concatenate (concatenate x y) z = concatenate x (concatenate y z)).
Proof.
  assert (Happ : forall (T : Type) (x y : list T), concatenate x y = x ++ y).
  { intros T x y. apply insert_range_end. }
  split; [|split].
  - intros T x y. rewrite Happ. repeat split.
    + apply length_app.
    + intros i Hi. by apply lookup_app_l.
    + intros i. by rewrite lookup_app_r, Nat.add_sub' by lia.
  - exists [1; 2], [3; 4]. rewrite !Happ. discriminate.
  - intros T x y z. rewrite !Happ. by rewrite app_assoc.
Qed.


Lemma concatenate_laws_witness :
  concatenate [1; 2] [3; 4] !! 1%nat = [1; 2] !! 1%nat.
Proof.
  destruct concatenate_laws as (Hcat & _ & _).
  destruct (Hcat Z [1; 2] [3; 4]) as (_ & _ & Hleft & _).
  apply Hleft. simpl. lia.
Defined.

(** ** Elementwise operations *)

Lemma Forall3_pointwise {A B C : Type} (R : A -> B -> C -> Prop)
    (x : list A) (y : list B) (z : list C) :
  Forall3 R x y z <->
  length x = length y /\ length x = length z /\ pointwise R x y z.
Proof.
  split.
  - intros HF. split; [by eapply Forall3_length_lm|].
    split; [by eapply Forall3_length_lr|].
    intros i a b c Ha Hb Hc. by eapply Forall3_lookup_lmr.
  - revert y z. induction x as [|a x IH]; intros [|b y] [|c z] (Hy & Hz & HR);
      simplify_eq/=; constructor.
    + by apply (HR 0%nat).
    + apply IH. repeat split; [done..|].
      intros i a' b' c' Ha Hb Hc. by apply (HR (S i)).
Qed.

Section TransformPointwise.
Context {A B C : Type} (op : A -> B -> option C).

(** [std::transform] over [x] with a second range at least as long and a
    destination [z0] of the length of [x]: it returns [z] exactly when [z]
    has the length of [x] and holds, index by index, the value of [op]. *)
Lemma transform_pointwise (x : list A) (y : list B) (z0 z : list C) :
  length z0 = length x -> (length x <= length y)%nat ->
  transform x y z0 op = Returns z <->
  length z = length x /\ pointwise (fun a b c => op a b = Some c) x y z.
Proof.
  intros Hz0 Hy. rewrite transform_Returns by done.
  rewrite Forall3_pointwise, length_take, Nat.min_l by done.
  split.
  - intros (_ & Hz & HR). split; [done|].
    intros i a b c Ha Hb Hc. apply (HR i); [done| |done].
    rewrite lookup_take_lt; [done|]. by eapply lookup_lt_Some.
  - intros (Hz & HR). repeat split; [done|].
    intros i a b c Ha Hb Hc. apply (HR i); [done| |done].
    by apply lookup_take_Some in Hb as [Hb _].
Qed.

(** An element pair on which [op] has no value makes the call undefined. *)
Lemma transform_undefined_element (x : list A) (y : list B) (z0 : list C) i a b :
  length z0 = length x ->
  x !! i = Some a -> y !! i = Some b -> op a b = None ->
  transform x y z0 op = Undefined.
Proof.
  intros Hz0 Ha Hb Hop.
  destruct (transform_cases op x y z0) as [|[z Hz]]; [done|].
  apply transform_Returns in Hz; [|done].
  destruct (Forall3_lookup_l _ _ _ _ _ _ Hz Ha) as (b' & c & Hb' & Hc & Hop').
  apply lookup_take_Some in Hb' as [Hb' _]. congruence.
Qed.
End TransformPointwise.

(** A total [op]: the result is the zip of the two ranges. *)
Lemma transform_total {A B C : Type} (f : A -> B -> C)
    (x : list A) (y : list B) (z0 : list C) :
  length z0 = length x -> (length x <= length y)%nat ->
  transform x y z0 (fun a b => Some (f a b)) = Returns (zip_with f x y).
Proof.
  intros Hz0 Hy. apply transform_pointwise; [done..|]. split.
  - by apply length_zip_with_l.
  - intros i a b c Ha Hb Hc. rewrite lookup_zip_with, Ha, Hb in Hc. done.
Qed.

(** On [double] the three operations are total: the result is the zip of
    the operands under the IEEE 754 operation. *)
Lemma add_sub_mul_double (x y : list float) :
  length x = length y ->
  add (E := double_element) x y = Returns (zip_with PrimFloat.add x y) /\
  sub (E := double_element) x y = Returns (zip_with PrimFloat.sub x y) /\
  mul (E := double_element) x y = Returns (zip_with PrimFloat.mul x y).
Proof.
  intros Hlen. unfold add, sub, mul. split; [|split].
  - apply (transform_total PrimFloat.add); [done|lia].
  - apply (transform_total PrimFloat.sub); [done|lia].
  - apply (transform_total PrimFloat.mul); [done|lia].
Qed.

(** On an unsigned type at least as wide as [int] they are total too, and
    wrap around. *)
Lemma add_sub_mul_uint32 (x y : list Z) :
  length x = length y ->
  add (E := int_element uint32_t) x y
    = Returns (zip_with (fun a b => wrap uint32_t (a + b)) x y) /\
  sub (E := int_element uint32_t) x y
    = Returns (zip_with (fun a b => wrap uint32_t (a - b)) x y) /\
  mul (E := int_element uint32_t) x y
    = Returns (zip_with (fun a b => wrap uint32_t (a * b)) x y).
Proof.
  intros Hlen. unfold add, sub, mul. split; [|split].
  - apply (transform_total (fun a b => wrap uint32_t (a + b))); [done|lia].
  - apply (transform_total (fun a b => wrap uint32_t (a - b))); [done|lia].
  - apply (transform_total (fun a b => wrap uint32_t (a * b))); [done|lia].
Qed.

Example add_wraps :
  add (E := int_element uint32_t) [4294967295; 7] [1; 8] = Returns [0; 15].
Proof. reflexivity. Qed.

Example add_signed_overflow :
  add (E := int_element int32_t) [2147483647] [1] = Undefined.
Proof. reflexivity. Qed.

(** Whether [std::transform] over operands of equal length returns is
    whether [op] has a value on every pair of elements. *)
Lemma Forall3_defined {A B C : Type} (op : A -> B -> option C)
    (x : list A) (y : list B) :
  length x = length y ->
  (forall i a b, x !! i = Some a -> y !! i = Some b -> is_Some (op a b)) ->
  exists z, Forall3 (fun a b c => op a b = Some c) x y z.
Proof.
  revert y. induction x as [|a x IH]; intros [|b y] Hlen Hdef; try done.
  - exists []. constructor.
  - destruct (Hdef 0%nat a b) as [c Hc]; [done..|].
    destruct (IH y) as [z Hz]; [by injection Hlen|..].
    + intros i a' b' Ha Hb. by apply (Hdef (S i)).
    + exists (c :: z). by constructor.
Qed.

Lemma transform_defined {A B C : Type} (op : A -> B -> option C)
    (x : list A) (y : list B) (z0 : list C) :
  length z0 = length x -> length x = length y ->
  (exists z, transform x y z0 op = Returns z) <->
  forall i a b, x !! i = Some a -> y !! i = Some b -> is_Some (op a b).
Proof.
  intros Hz0 Hlen. split.
  - intros [z Hz] i a b Ha Hb.
    apply transform_pointwise in Hz as [Hlenz HR]; [|done|lia].
    destruct (lookup_lt_is_Some_2 z i) as [c Hc].
    { rewrite Hlenz. by eapply lookup_lt_Some. }
    exists c. by apply (HR i).
  - intros Hdef. destruct (Forall3_defined op x y Hlen Hdef) as [z Hz].
    exists z. apply transform_Returns; [done|].
    by rewrite take_ge by lia.
Qed.

(** C6, as stated, fails: on a signed type an overflowing sum is
    undefined, so [add] does not return; and on a type narrower than
    [int] the element stored is the sum converted back to the type, not
    the sum. *)
Lemma add_not_always_the_sum :
  length [2147483647] = length [1] /\
  add (E := int_element int32_t) [2147483647] [1] = Undefined /\
  (forall z, add (E := int_element int32_t) [2147483647] [1] <> Returns z) /\
  add (E := int_element int8_t) [100] [100] = Returns [-56] /\
  100 + 100 <> -56.
Proof. repeat split; (reflexivity || discriminate || lia). Qed.

(** C6, amended. For sequences [x], [y] of equal length [n], [add(x, y)]
    returns exactly when [x[i] + y[i]] has a value in the element type at
    every index; the sequence it returns has length [n] and holds at every
    index the value of [x[i] + y[i]] in the element type.  The same holds
    for [sub] with [-] and [mul] with [*].  On [double], and on an
    unsigned type as wide as [int], where every sum, difference and
    product has a value, the three operations always return. *)
Theorem add_sub_mul_pointwise :
  (forall (T : Type) (E : ElementType T) (x y : list T) (n : nat),
     length x = n -> length y = n ->
     (forall z, add x y = Returns z <->
        length z = n /\
        pointwise (fun a b c => std_plus a b = Some c) x y z) /\
     (forall z, sub x y = Returns z <->
        length z = n /\
        pointwise (fun a b c => std_minus a b = Some c) x y z) /\
     (forall z, mul x y = Returns z <->
        length z = n /\
        pointwise (fun a b c => std_multiplies a b = Some c) x y z) /\
     ((exists z, add x y = Returns z) <->
      forall i a b, x !! i = Some a -> y !! i = Some b ->
        is_Some (std_plus a b)) /\
     ((exists z, sub x y = Returns z) <->
      forall i a b, x !! i = Some a -> y !! i = Some b ->
        is_Some (std_minus a b)) /\
     ((exists z, mul x y = Returns z) <->
      forall i a b, x !! i = Some a -> y !! i = Some b ->
        is_Some (std_multiplies a b))) /\
  (forall x y : list float,
     length x = length y ->
     add (E := double_element) x y = Returns (zip_with PrimFloat.add x y) /\
     sub (E := double_element) x y = Returns (zip_with PrimFloat.sub x y) /\
     mul (E := double_element) x y = Returns (zip_with PrimFloat.mul x y)) /\
  (forall x y : list Z,
     length x = length y ->
     add (E := int_element uint32_t) x y
       = Returns (zip_with (fun a b => wrap uint32_t (a + b)) x y) /\
     sub (E := int_element uint32_t) x y
       = Returns (zip_with (fun a b => wrap uint32_t (a - b)) x y) /\
     mul (E := int_element uint32_t) x y
       = Returns (zip_with (fun a b => wrap uint32_t (a * b)) x y)).
Proof.
  split; [|split].
  - intros T E x y n Hx Hy. unfold add, sub, mul. subst n.
    split; [intros z; apply transform_pointwise; (done || lia)|].
    split; [intros z; apply transform_pointwise; (done || lia)|].
    split; [intros z; apply transform_pointwise; (done || lia)|].
    split; [apply transform_defined; (done || lia)|].
    split; apply transform_defined; (done || lia).
  - apply add_sub_mul_double.
  - apply add_sub_mul_uint32.
Qed.

Lemma add_sub_mul_pointwise_witness :
  (length [4; 6] = 2%nat /\
   pointwise
     (fun a b c => std_plus (ElementType := int_element int32_t) a b = Some c)
     [1; 2] [3; 4] [4; 6]) /\
  (exists z, mul (E := int_element int32_t) [1; 2] [3; 4] = Returns z) /\
  add (E := double_element) [1.5%float] [2.5%float] = Returns [4%float].
Proof.
  destruct add_sub_mul_pointwise as (Hgen & Hdouble & _).
  destruct (Hgen Z (int_element int32_t) [1; 2] [3; 4] 2%nat eq_refl eq_refl)
    as (Hadd & _ & _ & _ & _ & Hmul).
  split; [|split].
  - apply Hadd. reflexivity.
  - apply Hmul. intros [|[|i]] a b Ha Hb; simplify_eq/=; by eexists.
  - by destruct (Hdouble [1.5%float] [2.5%float] eq_refl) as (-> & _).
Defined.

(** ** Comparison *)

Lemma compare_zip {T : Type} (Compare : T -> T -> bool) (x y : list T) :
  (length x <= length y)%nat ->
  compare Compare x y = Returns (zip_with Compare x y).
Proof.
  intros Hy. unfold compare. apply transform_total; [|done].
  apply length_replicate.
Qed.

Lemma zip_with_diagonal {T : Type} (Compare : T -> T -> bool) (x : list T) :
  (forall a, a ∈ x -> Compare a a = true) ->
  zip_with Compare x x = replicate (length x) true.
Proof.
  induction x as [|a x IH]; intros Hrefl; simpl; [done|].
  rewrite Hrefl by apply list_elem_of_here.
  rewrite IH; [done|]. intros b Hb. apply Hrefl. by apply list_elem_of_further.
Qed.

(** C9, as stated, fails on a floating-point sequence that holds a NaN:
    [std::equal_to<double>] is false on a NaN and itself. *)
Lemma compare_equal_nan :
  compare (std_equal_to (ElementType := double_element)) [nan] [nan]
    = Returns [false] /\
  compare (std_equal_to (ElementType := double_element)) [nan] [nan]
    <> Returns (replicate (length [nan]) true).
Proof. split; [reflexivity|discriminate]. Qed.

(** C9, amended. For equal-length inputs [compare] returns a mask of the
    same length whose element at each index is the selected predicate on
    the two elements at that index.  [compare(x, x, Equal)] is all true
    for every [x] whose elements are each equal to themselves under [==];
    that is every [x] of an integral type. *)
Theorem compare_mask :
  (forall (T : Type) (Compare : T -> T -> bool) (x y : list T) (n : nat),
     length x = n -> length y = n ->
     exists mask, compare Compare x y = Returns mask /\ length mask = n /\
       forall i a b, x !! i = Some a -> y !! i = Some b ->
         mask !! i = Some (Compare a b)) /\
  (forall (T : Type) (E : ElementType T) (x : list T),
     (forall a, a ∈ x -> std_equal_to a a = true) ->
     compare std_equal_to x x = Returns (replicate (length x) true)) /\
  (forall (ty : int_type) (x : list Z),
     compare (std_equal_to (ElementType := int_element ty)) x x
       = Returns (replicate (length x) true)).
Proof.
  split; [|split].
  - intros T Compare x y n Hx Hy. exists (zip_with Compare x y).
    split; [apply compare_zip; lia|]. split.
    + rewrite length_zip_with_l; [done|lia].
    + intros i a b Ha Hb. by rewrite lookup_zip_with, Ha, Hb.
  - intros T E x Hrefl. rewrite compare_zip by done.
    by rewrite zip_with_diagonal.
  - intros ty x. rewrite compare_zip by done.
    rewrite zip_with_diagonal; [done|]. intros a _. apply Z.eqb_refl.
Qed.

Lemma compare_mask_witness :
  (exists mask,
     compare (std_less (ElementType := int_element int32_t)) [1; 5] [2; 3]
       = Returns mask /\ length mask = 2%nat /\
     forall i a b, [1; 5] !! i = Some a -> [2; 3] !! i = Some b ->
       mask !! i = Some (std_less (ElementType := int_element int32_t) a b)) /\
  compare (std_equal_to (ElementType := double_element)) [1.5%float] [1.5%float]
    = Returns (replicate (length [1.5%float]) true).
Proof.
  destruct compare_mask as (Hmask & Hrefl & _). split.
  - apply (Hmask Z _ [1; 5] [2; 3] 2%nat); reflexivity.
  - apply (Hrefl float double_element [1.5%float]).
    intros a Ha. apply list_elem_of_singleton in Ha. subst a. reflexivity.
Defined.

(** ** [select] *)

Section Select.
Context {T : Type} {E : ElementType T}.


Lemma select_Returns (s : list bool) (x y : list T) :
  (length x <= length s)%nat -> (length x <= length y)%nat ->
  exists z, select s x y = Returns z /\ length z = length x /\
    forall i (si : bool) a b,
      s !! i = Some si -> x !! i = Some a -> y !! i = Some b ->
      z !! i = Some (if si then a else b).
Proof.
  intros Hs Hy. unfold select, for_loop. rewrite length_replicate.
  pose (P := fun (i : nat) (z : list T) =>
    length z = length x /\
    forall k (si : bool) a b, (k < i)%nat ->
      s !! k = Some si -> x !! k = Some a -> y !! k = Some b ->
      z !! k = Some (if si then a else b)).
  destruct (for_from_invariant P
    (fun i z => si ← read s i;
                v ← (if si : bool then read x i else read y i);
                write z i v)
    0 (length x) (replicate (length x) elt_zero)) as (z & Hz & Hlen & HP).
  - split; [apply length_replicate|]. intros; lia.
  - intros i z Hi [Hlen HP].
    destruct (read_in_bounds s i) as (si & Hsi & ->); [lia|].
    destruct (read_in_bounds x i) as (a & Ha & Hra); [lia|].
    destruct (read_in_bounds y i) as (b & Hb & Hrb); [lia|].
    exists (<[i:=if si then a else b]> z). split.
    + simpl. destruct si; [rewrite Hra|rewrite Hrb]; simpl;
        apply write_in_bounds; lia.
    + split; [by rewrite length_insert|].
      intros k sk a' b' Hk Hsk Ha' Hb'.
      destruct (decide (k = i)) as [->|Hne].
      * rewrite list_lookup_insert_eq by lia. by simplify_eq.
      * rewrite list_lookup_insert_ne by done. apply HP; [lia|done..].
  - exists z. split; [done|]. split; [done|].
    intros i si a b Hsi Ha Hb. apply HP; [|done..].
    apply lookup_lt_Some in Ha. lia.
Qed.

(** A false mask element at an index past the end of [y] reads [y] out of
    bounds. *)
Lemma select_operand_short (s : list bool) (x y : list T) i :
  (i < length x)%nat -> s !! i = Some false -> (length y <= i)%nat ->
  select s x y = Undefined.
Proof.
  intros Hi Hs Hy. unfold select, for_loop. rewrite length_replicate.
  apply (for_from_Undefined _ _ _ _ i); [|done|].
  - intros k z e. unfold read. destruct (s !! k) as [[|]|]; simpl; [| |done].
    + destruct (x !! k); simpl; [apply write_not_Throws|done].
    + destruct (y !! k); simpl; [apply write_not_Throws|done].
  - intros z. change (0 + i)%nat with i.
    rewrite (proj2 (read_Returns s i false) Hs). simpl.
    by rewrite (read_out_of_bounds y) by lia.
Qed.

(** A mask that ends before [x] is read out of bounds. *)
Lemma select_mask_short (s : list bool) (x y : list T) :
  (length s < length x)%nat -> select s x y = Undefined.
Proof.
  intros Hs. unfold select, for_loop. rewrite length_replicate.
  apply (for_from_Undefined _ _ _ _ (length s)); [|done|].
  - intros i z e. unfold read. destruct (s !! i) as [[|]|]; simpl; [| |done].
    + destruct (x !! i); simpl; [apply write_not_Throws|done].
    + destruct (y !! i); simpl; [apply write_not_Throws|done].
  - intros z. simpl. by rewrite (read_out_of_bounds s) by lia.
Qed.
End Select.

Example select_example :
  select (E := int_element int32_t) [true; false; true] [1; 2; 3] [10; 20; 30]
    = Returns [1; 20; 3].
Proof. reflexivity. Qed.

(** ** Operands of unequal length *)




(** ** Division *)

(** C3, as stated, fails: an integer division by zero is undefined, not a
    [DivisionByZero] failure. *)
Lemma div_by_zero_undefined :
  length [1] = length [0] /\
  div (E := int_element int32_t) [1] [0] = Undefined /\
  div (E := int_element int32_t) [1] [0] <> Throws DivisionByZero.
Proof. repeat split; (reflexivity || discriminate). Qed.

(** IEEE 754 division by a zero of either sign. *)
Lemma float_div_zero (a b : float) :
  PrimFloat.eqb b PrimFloat.zero = true ->
  PrimFloat.div a b = infinity \/ PrimFloat.div a b = neg_infinity \/
  PrimFloat.div a b = nan.
Proof.
  intros Hb. rewrite FloatAxioms.eqb_spec in Hb.
  assert (Hzero : Prim2SF PrimFloat.zero = S754_zero false) by reflexivity.
  rewrite Hzero in Hb.
  rewrite <- (SF2Prim_Prim2SF (PrimFloat.div a b)), div_spec.
  destruct (Prim2SF b) as [sb|sb| |sb mb eb];
    [|destruct sb; discriminate|discriminate|destruct sb; discriminate].
  destruct (Prim2SF a) as [[|]|[|]| |[|] ma ea], sb; simpl; auto.
Qed.

(** C3, amended. For equal-length sequences of an integral type, [div] is
    undefined whenever some [y[i]] is zero: it neither returns nor reports
    a failure.  For [double] it never fails: it returns the IEEE 754
    quotient at each index, which for a zero divisor is an infinity or
    NaN. *)
Theorem div_zero_divisor :
  (forall (ty : int_type) (x y : list Z) (i : nat),
     length x = length y -> y !! i = Some 0 ->
     div (E := int_element ty) x y = Undefined) /\
  (forall x y : list float,
     length x = length y ->
     div (E := double_element) x y = Returns (zip_with PrimFloat.div x y)) /\
  (forall a b : float,
     PrimFloat.eqb b PrimFloat.zero = true ->
     PrimFloat.div a b = infinity \/ PrimFloat.div a b = neg_infinity \/
     PrimFloat.div a b = nan).
Proof.
  split; [|split].
  - intros ty x y i Hlen Hy.
    destruct (lookup_lt_is_Some_2 x i) as [a Ha].
    { rewrite Hlen. by eapply lookup_lt_Some. }
    by apply (transform_undefined_element _ x y x i a 0).
  - intros x y Hlen. unfold div. apply (transform_total PrimFloat.div); [done|lia].
  - apply float_div_zero.
Qed.

Lemma div_zero_divisor_witness :
  div (E := int_element int32_t) [6; 1] [3; 0] = Undefined /\
  div (E := double_element) [1%float; (-1)%float; 0%float] [0%float; 0%float; 0%float]
    = Returns [infinity; neg_infinity; nan] /\
  (PrimFloat.div 1 (-0) = infinity \/ PrimFloat.div 1 (-0) = neg_infinity \/
   PrimFloat.div 1 (-0) = nan).
Proof.
  destruct div_zero_divisor as (Hint & Hdouble & Hzero).
  split; [|split].
  - apply (Hint int32_t [6; 1] [3; 0] 1%nat); reflexivity.
  - apply (Hdouble [1%float; (-1)%float; 0%float] [0%float; 0%float; 0%float]).
    reflexivity.
  - apply (Hzero 1%float (-0)%float). reflexivity.
Defined.


(** ** [abs] *)

(** The overload on a real-valued sequence keeps the length: its result
    starts as a copy of [x]. *)
Lemma abs_map {T : Type} (std_abs : T -> T) (x : list T) :
  abs std_abs x = Returns (map std_abs x).
Proof.
  unfold abs, for_loop.
  pose (P := fun (i : nat) (z : list T) =>
    length z = length x /\
    forall k, (k < i)%nat -> z !! k = std_abs <$> x !! k).
  destruct (for_from_invariant P
    (fun i z => xi ← read x i; write z i (std_abs xi)) 0 (length x) x)
    as (z & -> & Hlen & HP).
  - split; [done|]. intros; lia.
  - intros i z Hi [Hlen HP].
    destruct (read_in_bounds x i) as (a & Ha & ->); [lia|]. simpl.
    rewrite write_in_bounds by lia. eexists. split; [done|].
    split; [by rewrite length_insert|]. intros k Hk.
    destruct (decide (k = i)) as [->|Hne].
    + rewrite list_lookup_insert_eq by lia. by rewrite Ha.
    + rewrite list_lookup_insert_ne by done. apply HP. lia.
  - f_equal. apply list_eq. intros i. rewrite list_lookup_fmap.
    destruct (decide (i < length x)%nat) as [Hi|Hi]; [by apply HP|].
    rewrite !lookup_ge_None_2; [done|lia..].
Qed.

(** C1 (defect). The overload on a complex sequence returns the empty
    sequence for every input: [reserve] leaves the size of [z] at zero, so
    the loop bounded by [z.size()] never runs.  On [[3+4i]], whose
    magnitude is [5], the result has length 0 instead of 1. *)
Theorem abs_complex_returns_empty :
  (forall (T : Type) (std_abs_complex : complex T -> T) (x : list (complex T)),
     abs_complex std_abs_complex x = Returns []) /\
  abs_complex magnitude [Complex 3%float 4%float] = Returns [] /\
  magnitude (Complex 3%float 4%float) = 5%float.
Proof. split; [|split]; reflexivity. Qed.

(** ** Integral types *)

(** Evaluate the powers of two in the bounds of a concrete type. *)
Ltac pow_consts :=
  repeat match goal with
  | |- context [Z.pow ?a ?b] =>
      let v := eval vm_compute in (Z.pow a b) in
      progress change (Z.pow a b) with v
  | H : context [Z.pow ?a ?b] |- _ =>
      let v := eval vm_compute in (Z.pow a b) in
      progress change (Z.pow a b) with v in H
  end.

Lemma in_range_bounds (ty : int_type) (v : Z) :
  in_range ty v = true <-> int_min ty <= v <= int_max ty.
Proof. unfold in_range. rewrite andb_true_iff, !Z.leb_le. done. Qed.

Lemma wrap_int32_in_range (p : Z) : in_range int32_t (wrap int32_t p) = true.
Proof.
  apply in_range_bounds. unfold wrap, int_min, int_max. simpl. pow_consts.
  pose proof (Z.mod_pos_bound (p + 2147483648) 4294967296). lia.
Qed.

Lemma wrap_uint64_nonneg (n : Z) :
  0 <= n <= int_max int32_t -> wrap uint64_t n = n.
Proof.
  unfold wrap, int_max. simpl. pow_consts. intros Hn. apply Z.mod_small. lia.
Qed.

Lemma wrap_uint64_negative (n : Z) :
  int_min int32_t <= n < 0 -> wrap uint64_t n = n + 2 ^ 64.
Proof.
  unfold wrap, int_min. simpl. pow_consts. intros Hn.
  symmetry. apply (Z.mod_unique _ _ (-1)); lia.
Qed.

Lemma max_size_upper (ty : int_type) : max_size ty <= int_max int64_t.
Proof.
  unfold max_size, sizeof.
  apply Z.div_le_upper_bound; [lia|]. unfold int_max; simpl. pow_consts. nia.
Qed.

Lemma max_size_lower (ty : int_type) :
  standard ty -> int_max int32_t <= max_size ty.
Proof.
  unfold standard, max_size, sizeof. destruct ty as [sg w]. simpl.
  intros [ -> | [ -> | [ -> | -> ] ] ]; by vm_compute.
Qed.

(** For [low < high] within the type, [high - 1] is computed exactly. *)
Lemma high_minus_one (ty : int_type) (low high : Z) :
  standard ty -> in_range ty low = true -> in_range ty high = true ->
  low < high -> int_arith ty (high - 1) = Some (high - 1).
Proof.
  rewrite !in_range_bounds. unfold standard. destruct ty as [sg w]. simpl.
  intros [ -> | [ -> | [ -> | -> ] ] ] Hlow Hhigh Hlt; destruct sg;
    unfold int_min, int_max in Hlow, Hhigh; simpl in Hlow, Hhigh;
    unfold int_arith, in_range, int_min, int_max, wrap; simpl; pow_consts;
    repeat match goal with
    | |- context [(?a <=? ?b)] => destruct (Z.leb_spec a b); try lia
    end; simpl; f_equal;
    try (rewrite Z.mod_small; lia).
Qed.

(** ** The sample count *)

Lemma multiply_into_int_exact (init d : Z) :
  in_range int64_t (init * d) = true ->
  multiply_into_int init d = Some (wrap int32_t (init * d)).
Proof.
  intros Hp. unfold multiply_into_int.
  change (std_multiplies (ElementType := int_element int64_t) init d)
    with (int_arith int64_t (init * d)).
  unfold int_arith.
  change (bits int64_t <? 32) with false. change (is_signed int64_t) with true.
  cbv iota. by rewrite Hp.
Qed.

Lemma multiply_into_int_in_range (init d p : Z) :
  multiply_into_int init d = Some p -> in_range int32_t p = true.
Proof.
  unfold multiply_into_int. intros Hp.
  apply bind_Some in Hp as (q & _ & [= <-]). apply wrap_int32_in_range.
Qed.

Lemma accumulate_int_in_range (shape : list Z) (init n : Z) :
  in_range int32_t init = true ->
  accumulate shape init multiply_into_int = Returns n ->
  in_range int32_t n = true.
Proof.
  revert init. induction shape as [|d shape IH]; intros init Hinit; simpl.
  - by intros [= <-].
  - destruct (multiply_into_int init d) as [p|] eqn:Hp; simpl; [|done].
    apply IH. by eapply multiply_into_int_in_range.
Qed.

Lemma sample_count_in_range (shape : list Z) (n : Z) :
  sample_count shape = Returns n -> in_range int32_t n = true.
Proof. by apply accumulate_int_in_range. Qed.

(** The count for a single dimension is that dimension converted to
    [int]. *)
Lemma sample_count_singleton (N : Z) :
  in_range int64_t N = true -> sample_count [N] = Returns (wrap int32_t N).
Proof.
  intros HN. unfold sample_count. simpl.
  rewrite multiply_into_int_exact by (by rewrite Z.mul_1_l).
  by rewrite Z.mul_1_l.
Qed.

(** Where every dimension is positive and the product of the dimensions
    fits an [int], the count is that product. *)
Lemma accumulate_int_product (shape : list Z) (init : Z) :
  1 <= init -> Forall (fun d => 1 <= d) shape ->
  init * foldr Z.mul 1 shape <= int_max int32_t ->
  accumulate shape init multiply_into_int
    = Returns (init * foldr Z.mul 1 shape).
Proof.
  intros Hinit Hshape. revert init Hinit.
  induction Hshape as [|d shape Hd Hshape IH]; intros init Hinit Hmax; simpl.
  - by rewrite Z.mul_1_r.
  - simpl in Hmax.
    assert (Hrest : 1 <= foldr Z.mul 1 shape).
    { clear -Hshape. induction Hshape; simpl; nia. }
    unfold int_max in Hmax; simpl in Hmax. pow_consts.
    assert (Hp : 1 <= init * d <= 2147483647) by nia.
    rewrite multiply_into_int_exact.
    2:{ apply in_range_bounds. unfold int_min, int_max. simpl. pow_consts. lia. }
    assert (Hw : wrap int32_t (init * d) = init * d).
    { unfold wrap. simpl. pow_consts. rewrite Z.mod_small; lia. }
    simpl. rewrite Hw, IH; [f_equal; ring|lia|].
    unfold int_max. simpl. pow_consts. rewrite Z.mul_assoc in Hmax. lia.
Qed.

Lemma sample_count_product (shape : list Z) :
  Forall (fun d => 1 <= d) shape ->
  foldr Z.mul 1 shape <= int_max int32_t ->
  sample_count shape = Returns (foldr Z.mul 1 shape).
Proof.
  intros Hshape Hmax. unfold sample_count.
  rewrite accumulate_int_product; [f_equal; lia|lia|done|lia].
Qed.

(** ** [std::vector] sized by an [int64_t] *)

Lemma vector_sized_nonneg (ty : int_type) (n : Z) :
  0 <= n <= int_max int32_t -> wrap uint64_t n <= max_size ty ->
  vector_sized ty n = Returns (replicate (Z.to_nat n) 0).
Proof.
  intros Hn Hmax. unfold vector_sized.
  destruct (Z.leb_spec (wrap uint64_t n) (max_size ty)); [|lia].
  by rewrite wrap_uint64_nonneg.
Qed.

Lemma vector_sized_negative (ty : int_type) (n : Z) :
  int_min int32_t <= n < 0 -> vector_sized ty n = Throws LengthError.
Proof.
  intros Hn. unfold vector_sized. rewrite wrap_uint64_negative by done.
  pose proof (max_size_upper ty) as Hmax.
  unfold int_min in Hn. unfold int_max in Hmax. simpl in Hn, Hmax. pow_consts.
  destruct (Z.leb_spec (n + 18446744073709551616) (max_size ty)); [lia|done].
Qed.

(** ** Uniform sampling *)

Section RngProperties.
Context {Engine : Type}.
Variable mt19937 : Z -> Engine.
Variable draw : Z -> Z -> Engine -> Z * Engine.

(** The contract of [std::uniform_int_distribution<T>(a, b)]: a draw lies
    in the closed interval [a, b]. *)
Hypothesis draw_closed :
  forall a b gen, a <= b -> a <= (draw a b gen).1 <= b.

Lemma sample_in_bounds (a b : Z) (i : nat) (result : list Z) (gen : Engine) :
  (i < length result)%nat ->
  sample draw a b i (result, gen)
  = Returns (<[i:=(draw a b gen).1]> result, (draw a b gen).2).
Proof.
  intros Hi. unfold sample. destruct (draw a b gen) as [v gen'].
  by rewrite write_in_bounds.
Qed.

(** The sampling loop fills all [count] slots with draws from [a, b]. *)
Lemma sample_loop (a b : Z) (count : nat) (result : list Z) (gen : Engine) :
  a <= b -> length result = count ->
  exists r, for_loop count (sample draw a b) (result, gen) = Returns r /\
    length r.1 = count /\ Forall (fun v => a <= v <= b) r.1.
Proof.
  intros Hab Hlen. unfold for_loop.
  pose (P := fun (i : nat) (st : list Z * Engine) =>
    length st.1 = count /\
    forall k v, (k < i)%nat -> st.1 !! k = Some v -> a <= v <= b).
  destruct (for_from_invariant P (sample draw a b) 0 count (result, gen))
    as (r & Hr & Hlen' & HP).
  - split; [done|]. intros; lia.
  - intros i [res g] Hi [Hl HP]. simpl in Hl. unfold sample.
    pose proof (draw_closed a b g Hab) as Hv.
    destruct (draw a b g) as [v g']. simpl in Hv.
    rewrite write_in_bounds by lia. simpl. eexists. split; [done|].
    split; [simpl; by rewrite length_insert|]. simpl.
    intros k w Hk Hw. destruct (decide (k = i)) as [->|Hne].
    + rewrite list_lookup_insert_eq in Hw by lia. by simplify_eq.
    + rewrite list_lookup_insert_ne in Hw by done. apply (HP k); [lia|done].
  - exists r. split; [done|]. split; [done|].
    apply Forall_lookup. intros k v Hk. apply (HP k); [|done].
    apply lookup_lt_Some in Hk. simpl. lia.
Qed.

(** [rng_uniform] with its count, its upper bound and its storage
    settled. *)
Lemma rng_uniform_samples (ty : int_type) (low high : Z) (shape : list Z)
    (rd n b : Z) :
  sample_count shape = Returns n -> int_arith ty (high - 1) = Some b ->
  low <= b -> 0 <= n -> wrap uint64_t n <= max_size ty ->
  exists samples,
    rng_uniform mt19937 draw ty low high shape rd = Returns samples /\
    length samples = Z.to_nat n /\ Forall (fun v => low <= v <= b) samples.
Proof.
  intros Hn Hb Hlow Hpos Hmax.
  assert (Hn32 : 0 <= n <= int_max int32_t).
  { apply sample_count_in_range, in_range_bounds in Hn. lia. }
  unfold rng_uniform. rewrite Hn, Hb. simpl.
  rewrite decide_True by done.
  rewrite vector_sized_nonneg by done. simpl.
  rewrite wrap_uint64_nonneg by done.
  destruct (sample_loop low b (Z.to_nat n) (replicate (Z.to_nat n) 0)
              (mt19937 rd)) as (r & -> & Hlen & Hall);
    [done|apply length_replicate|].
  simpl. by exists r.1.
Qed.

(** What a returned [rng_uniform] has done. *)
Lemma rng_uniform_Returns (ty : int_type) (low high : Z) (shape : list Z)
    (rd : Z) (samples : list Z) :
  rng_uniform mt19937 draw ty low high shape rd = Returns samples ->
  exists n b,
    sample_count shape = Returns n /\ int_arith ty (high - 1) = Some b /\
    0 <= n /\ length samples = Z.to_nat n /\
    Forall (fun v => low <= v <= b) samples.
Proof.
  intros Hret.
  destruct (sample_count shape) as [n| |] eqn:Hn;
    [|unfold rng_uniform in Hret; by rewrite Hn in Hret..].
  destruct (int_arith ty (high - 1)) as [b|] eqn:Hb;
    [|unfold rng_uniform in Hret; by rewrite Hn, Hb in Hret].
  destruct (decide (low <= b)) as [Hlow|Hlow];
    [|unfold rng_uniform in Hret; rewrite Hn, Hb in Hret; simpl in Hret;
      by rewrite decide_False in Hret].
  pose proof (sample_count_in_range _ _ Hn) as Hn32.
  apply in_range_bounds in Hn32.
  destruct (decide (0 <= n)) as [Hpos|Hneg].
  - destruct (Z.leb_spec (wrap uint64_t n) (max_size ty)) as [Hmax|Hmax].
    + destruct (rng_uniform_samples ty low high shape rd n b)
        as (samples' & Hret' & Hlen & Hall); [done..|].
      rewrite Hret in Hret'. injection Hret' as <-. by exists n, b.
    + unfold rng_uniform in Hret. rewrite Hn, Hb in Hret. simpl in Hret.
      rewrite decide_True in Hret by done. unfold vector_sized in Hret.
      destruct (Z.leb_spec (wrap uint64_t n) (max_size ty)); [lia|done].
  - unfold rng_uniform in Hret. rewrite Hn, Hb in Hret. simpl in Hret.
    rewrite decide_True in Hret by done.
    rewrite vector_sized_negative in Hret by lia. done.
Qed.

(** The samples of [rng_uniform] lie in the half-open interval
    [low, high): whenever the call returns, it returns as many samples as
    the count it computed, each at least [low] and below [high]; and it
    does return for every non-negative count. *)
Lemma rng_uniform_half_open (ty : int_type) (low high : Z) (shape : list Z)
    (rd : Z) :
  standard ty -> in_range ty low = true -> in_range ty high = true ->
  low < high ->
  (forall samples,
     rng_uniform mt19937 draw ty low high shape rd = Returns samples ->
     exists n, sample_count shape = Returns n /\ 0 <= n /\
       length samples = Z.to_nat n /\
       Forall (fun v => low <= v < high) samples) /\
  (forall n, sample_count shape = Returns n -> 0 <= n ->
     exists samples,
       rng_uniform mt19937 draw ty low high shape rd = Returns samples).
Proof.
  intros Hty Hlow Hhigh Hlt.
  pose proof (high_minus_one ty low high Hty Hlow Hhigh Hlt) as Hb.
  split.
  - intros samples Hret.
    destruct (rng_uniform_Returns _ _ _ _ _ _ Hret)
      as (n & b & Hn & Hb' & Hpos & Hlen & Hall).
    exists n. repeat split; [done..|].
    rewrite Hb in Hb'. injection Hb' as <-.
    eapply Forall_impl; [done|]. simpl. intros v Hv. lia.
  - intros n Hn Hpos.
    pose proof (sample_count_in_range _ _ Hn) as Hn32.
    apply in_range_bounds in Hn32.
    destruct (rng_uniform_samples ty low high shape rd n (high - 1))
      as (samples & Hret & _); [done|done|lia|done| |by exists samples].
    rewrite wrap_uint64_nonneg by lia.
    pose proof (max_size_lower ty Hty). lia.
Qed.

(** C4 (defect). The sample count is accumulated in an [int], because the
    initial value [1] of [std::accumulate] is one: for the shape
    [[4294967298]], whose product of dimensions is 4294967298, the count is
    2 and [rng_uniform(0, 5, shape)] returns 2 samples. *)
Theorem rng_uniform_count_truncated (rd : Z) :
  foldr Z.mul 1 [4294967298] = 4294967298 /\
  sample_count [4294967298] = Returns 2 /\
  exists v1 v2,
    rng_uniform mt19937 draw int32_t 0 5 [4294967298] rd = Returns [v1; v2].
Proof.
  split; [reflexivity|]. split; [reflexivity|].
  unfold rng_uniform.
  change (sample_count [4294967298]) with (Returns (A := Z) 2).
  change (int_arith int32_t (5 - 1)) with (Some 4).
  cbn [mbind outcome_bind of_option].
  rewrite decide_True by lia.
  change (vector_sized int32_t 2) with (Returns [0; 0]).
  change (Z.to_nat (wrap uint64_t 2)) with 2%nat.
  cbn [mbind outcome_bind for_loop for_from].
  rewrite sample_in_bounds by (simpl; lia). cbn [mbind outcome_bind].
  rewrite sample_in_bounds by (simpl; lia). cbn [mbind outcome_bind].
  eexists _, _. reflexivity.
Qed.

(** ** [rng_bit_generator] *)

(** The state comes back as it went in, and the values are those of
    [rng_uniform] over [min, max) of the element type. *)
Lemma rng_bit_generator_Returns (ty : int_type) (Algorithm N : Z)
    (state : list Z) (rd : Z) (state' vals : list Z) :
  rng_bit_generator mt19937 draw ty Algorithm N state rd
    = Returns (state', vals) <->
  state' = state /\
  rng_uniform mt19937 draw ty (int_min ty) (int_max ty) [N] rd = Returns vals.
Proof.
  unfold rng_bit_generator.
  destruct (rng_uniform mt19937 draw ty (int_min ty) (int_max ty) [N] rd)
    as [vals'| |]; simpl.
  - split; [by intros [= <- <-]|by intros [-> [= ->]]].
  - split; [done|by intros [_ ?]].
  - split; [done|by intros [_ ?]].
Qed.

(** The algorithm selector is not used. *)
Lemma rng_bit_generator_ignores_algorithm (ty : int_type)
    (Algorithm1 Algorithm2 N : Z) (state : list Z) (rd : Z) :
  rng_bit_generator mt19937 draw ty Algorithm1 N state rd
  = rng_bit_generator mt19937 draw ty Algorithm2 N state rd.
Proof. reflexivity. Qed.

Lemma limits_standard (ty : int_type) :
  standard ty ->
  in_range ty (int_min ty) = true /\ in_range ty (int_max ty) = true /\
  int_min ty < int_max ty.
Proof.
  unfold standard. destruct ty as [sg w]. simpl.
  intros [ -> | [ -> | [ -> | -> ] ] ]; destruct sg; by vm_compute.
Qed.

(** For a count [N] that an [int] holds, the call returns [N] values. *)
Lemma rng_bit_generator_count (ty : int_type) (Algorithm N : Z)
    (state : list Z) (rd : Z) :
  standard ty -> 0 <= N <= int_max int32_t ->
  exists vals,
    rng_bit_generator mt19937 draw ty Algorithm N state rd
      = Returns (state, vals) /\
    length vals = Z.to_nat N.
Proof.
  intros Hty HN.
  destruct (limits_standard ty Hty) as (Hmin & Hmax & Hlt).
  assert (Hw : wrap int32_t N = N).
  { unfold wrap, int_max in *. simpl in *. pow_consts.
    rewrite Z.mod_small; lia. }
  assert (Hcount : sample_count [N] = Returns N).
  { rewrite sample_count_singleton, Hw; [done|].
    apply in_range_bounds. unfold int_min, int_max in *. simpl in *.
    pow_consts. lia. }
  destruct (rng_uniform_half_open ty (int_min ty) (int_max ty) [N] rd)
    as [Hin Hex]; [done..|].
  destruct (Hex N) as [vals Hvals]; [done|lia|].
  exists vals. split; [by apply rng_bit_generator_Returns|].
  destruct (Hin vals Hvals) as (n & Hn & _ & Hlen & _). congruence.
Qed.

(** C5 (defect). For [N = 4294967298] the call returns 2 values, not [N]:
    the count is the one [rng_uniform] accumulates in an [int]. *)
Theorem rng_bit_generator_count_truncated (Algorithm : Z) (state : list Z)
    (rd : Z) :
  exists v1 v2,
    rng_bit_generator mt19937 draw int32_t Algorithm 4294967298 state rd
      = Returns (state, [v1; v2]).
Proof.
  unfold rng_bit_generator, rng_uniform.
  change (sample_count [4294967298]) with (Returns (A := Z) 2).
  change (int_arith int32_t (int_max int32_t - 1)) with (Some 2147483646).
  change (int_min int32_t) with (-2147483648).
  cbn [mbind outcome_bind of_option].
  rewrite decide_True by lia.
  change (vector_sized int32_t 2) with (Returns [0; 0]).
  change (Z.to_nat (wrap uint64_t 2)) with 2%nat.
  cbn [mbind outcome_bind for_loop for_from].
  rewrite sample_in_bounds by (simpl; lia). cbn [mbind outcome_bind].
  rewrite sample_in_bounds by (simpl; lia). cbn [mbind outcome_bind].
  eexists _, _. reflexivity.
Qed.

(** C10. Every value [rng_bit_generator] produces is at least the
    minimum of the element type and strictly below its maximum: the
    maximum is the exclusive upper bound handed to [rng_uniform].  The
    call does produce values: for a count an [int] holds it returns that
    many. *)
Theorem rng_bit_generator_below_max (ty : int_type) (Algorithm N : Z)
    (state : list Z) (rd : Z) :
  standard ty ->
  (forall state' vals,
     rng_bit_generator mt19937 draw ty Algorithm N state rd
       = Returns (state', vals) ->
     Forall (fun v => int_min ty <= v < int_max ty) vals) /\
  (0 <= N <= int_max int32_t ->
   exists vals,
     rng_bit_generator mt19937 draw ty Algorithm N state rd
       = Returns (state, vals) /\
     length vals = Z.to_nat N).
Proof.
  intros Hty. split; [|by apply rng_bit_generator_count].
  intros state' vals Hret.
  apply rng_bit_generator_Returns in Hret as [_ Hret].
  destruct (limits_standard ty Hty) as (Hmin & Hmax & Hlt).
  destruct (rng_uniform_half_open ty (int_min ty) (int_max ty) [N] rd)
    as [Hin _]; [done..|].
  by destruct (Hin vals Hret) as (n & _ & _ & _ & Hall).
Qed.
End RngProperties.

Lemma lcg_draw_closed (a b gen : Z) :
  a <= b -> a <= (lcg_draw a b gen).1 <= b.
Proof.
  intros Hab. unfold lcg_draw. simpl.
  pose proof (Z.mod_pos_bound ((1103515245 * gen + 12345) mod 2 ^ 31)
                (b - a + 1)). lia.
Qed.

Lemma rng_bit_generator_below_max_witness :
  standard int8_t /\
  Forall (fun v => int_min int8_t <= v < int_max int8_t)
    [-62; -95; 65; -92; 67] /\
  exists vals,
    rng_bit_generator lcg_seed lcg_draw int8_t 0 5 [1; 2] 7
      = Returns ([1; 2], vals) /\
    length vals = Z.to_nat 5.
Proof.
  assert (Hty : standard int8_t) by (by left).
  destruct (rng_bit_generator_below_max lcg_seed lcg_draw lcg_draw_closed
              int8_t 0 5 [1; 2] 7 Hty) as [Hin Hex].
  split; [done|]. split.
  - apply (Hin [1; 2]). by vm_compute.
  - apply Hex. by vm_compute.
Defined.

(** * Further properties of the catalogue *)

(** ** Loops that fill a destination from a source *)

(** The loop [for (i = 0; i < z.size(); i++) z[i] = f(x[i]);] over a
    destination as long as [x] returns [f] mapped over [x]. *)
Lemma map_loop {A B : Type} (f : A -> B) (x : list A) (z0 : list B) :
  length z0 = length x ->
  for_loop (length z0) (fun i z => xi ← read x i; write z i (f xi)) z0
  = Returns (map f x).
Proof.
  intros Hz0. unfold for_loop.
  pose (P := fun (i : nat) (z : list B) =>
    length z = length x /\
    forall k, (k < i)%nat -> z !! k = f <$> x !! k).
  destruct (for_from_invariant P
    (fun i z => xi ← read x i; write z i (f xi)) 0 (length z0) z0)
    as (z & -> & Hlen & HP).
  - split; [done|]. intros; lia.
  - intros i z Hi [Hlen HP].
    destruct (read_in_bounds x i) as (a & Ha & ->); [lia|]. simpl.
    rewrite write_in_bounds by lia. eexists. split; [done|].
    split; [by rewrite length_insert|]. intros k Hk.
    destruct (decide (k = i)) as [->|Hne].
    + rewrite list_lookup_insert_eq by lia. by rewrite Ha.
    + rewrite list_lookup_insert_ne by done. apply HP. lia.
  - f_equal. apply list_eq. intros i. rewrite list_lookup_fmap.
    destruct (decide (i < length x)%nat) as [Hi|Hi]; [apply HP; lia|].
    rewrite !lookup_ge_None_2; [done|lia..].
Qed.

(** ** Unary elementwise operations *)

(** X1. On a [double] sequence [cos], [sin] and [sqrt] return a sequence
    of the same length that holds [std::cos], [std::sin] and the square
    root of [x[i]] at every index [i]; on the empty sequence they return
    the empty sequence. *)
Theorem cos_sin_sqrt_pointwise (std_cos std_sin : float -> float)
    (x : list float) :
  (exists c s q,
     cos std_cos x = Returns c /\ sin std_sin x = Returns s /\
     sqrt PrimFloat.sqrt x = Returns q /\
     length c = length x /\ length s = length x /\ length q = length x /\
     forall i a, x !! i = Some a ->
       c !! i = Some (std_cos a) /\ s !! i = Some (std_sin a) /\
       q !! i = Some (PrimFloat.sqrt a)) /\
  cos std_cos [] = Returns [] /\ sin std_sin [] = Returns [] /\
  sqrt PrimFloat.sqrt [] = Returns [].
Proof.
  split; [|by repeat split].
  exists (map std_cos x), (map std_sin x), (map PrimFloat.sqrt x).
  unfold cos, sin, sqrt. rewrite !map_loop by done.
  repeat split; try apply length_map; by rewrite list_lookup_fmap, H.
Qed.

Lemma cos_sin_sqrt_pointwise_witness :
  exists q, sqrt PrimFloat.sqrt [9%float; 16%float] = Returns q /\
    q !! 1%nat = Some 4%float.
Proof.
  destruct (cos_sin_sqrt_pointwise PrimFloat.opp PrimFloat.opp
              [9%float; 16%float]) as [(c & s & q & _ & _ & Hq & _ & _ & _ & Hi) _].
  exists q. split; [done|].
  by destruct (Hi 1%nat 16%float eq_refl) as (_ & _ & ->).
Defined.

(** *** [double] *)

Lemma float_abs_idempotent (a : float) :
  PrimFloat.abs (PrimFloat.abs a) = PrimFloat.abs a.
Proof.
  apply Prim2SF_inj. rewrite !abs_spec.
  by destruct (Prim2SF a).
Qed.

Lemma float_abs_not_negative (a : float) :
  PrimFloat.ltb (PrimFloat.abs a) PrimFloat.zero = false.
Proof.
  rewrite ltb_spec, abs_spec.
  assert (Hzero : Prim2SF PrimFloat.zero = S754_zero false) by reflexivity.
  rewrite Hzero. by destruct (Prim2SF a).
Qed.

(** The square root of a negative number is NaN. *)
Lemma float_sqrt_negative (a : float) :
  PrimFloat.ltb a PrimFloat.zero = true -> PrimFloat.sqrt a = nan.
Proof.
  intros Ha. rewrite ltb_spec in Ha.
  assert (Hzero : Prim2SF PrimFloat.zero = S754_zero false) by reflexivity.
  rewrite Hzero in Ha.
  rewrite <- (SF2Prim_Prim2SF (PrimFloat.sqrt a)), sqrt_spec.
  destruct (Prim2SF a) as [s|[|]| |[|] m e]; try discriminate; reflexivity.
Qed.

(** X2. On a [double] sequence [abs] returns the magnitudes: no element of
    the result is below zero, and applying [abs] to the result returns it
    unchanged. *)
Theorem abs_double (x : list float) :
  exists z, abs PrimFloat.abs x = Returns z /\ length z = length x /\
    (forall i a, x !! i = Some a -> z !! i = Some (PrimFloat.abs a)) /\
    (forall v, v ∈ z -> PrimFloat.ltb v PrimFloat.zero = false) /\
    abs PrimFloat.abs z = Returns z.
Proof.
  exists (map PrimFloat.abs x). rewrite !abs_map. repeat split.
  - apply length_map.
  - intros i a Ha. by rewrite list_lookup_fmap, Ha.
  - intros v Hv. apply list_elem_of_fmap in Hv as (a & -> & _).
    apply float_abs_not_negative.
  - f_equal. rewrite <- list_fmap_compose. apply list_fmap_ext.
    intros i a _. simpl. apply float_abs_idempotent.
Qed.

Lemma abs_double_witness :
  exists z, abs PrimFloat.abs [(-2)%float; 3%float] = Returns z /\
    z !! 0%nat = Some 2%float /\
    PrimFloat.ltb 2%float PrimFloat.zero = false.
Proof.
  destruct (abs_double [(-2)%float; 3%float]) as (z & Hz & _ & Hi & Hpos & _).
  exists z. split; [done|].
  pose proof (Hi 0%nat (-2)%float eq_refl) as H0.
  split; [exact H0|].
  apply Hpos. by apply (list_elem_of_lookup_2 _ 0%nat).
Defined.

(** X3. On a [double] sequence [sqrt] never fails, and at every index that
    holds a negative number the result holds NaN. *)
Theorem sqrt_double_negative (x : list float) :
  exists z, sqrt PrimFloat.sqrt x = Returns z /\ length z = length x /\
    forall i a, x !! i = Some a -> PrimFloat.ltb a PrimFloat.zero = true ->
      z !! i = Some nan.
Proof.
  exists (map PrimFloat.sqrt x). unfold sqrt. rewrite map_loop by done.
  repeat split.
  - apply length_map.
  - intros i a Ha Hneg. rewrite list_lookup_fmap, Ha. simpl.
    by rewrite float_sqrt_negative.
Qed.

Lemma sqrt_double_negative_witness :
  exists z, sqrt PrimFloat.sqrt [4%float; (-4)%float] = Returns z /\
    z !! 1%nat = Some nan.
Proof.
  destruct (sqrt_double_negative [4%float; (-4)%float]) as (z & Hz & _ & Hneg).
  exists z. split; [done|].
  apply (Hneg 1%nat (-4)%float); reflexivity.
Defined.

(** ** Binary elementwise operations *)

(** Elements of the second range past the length of the first are never
    visited. *)
Lemma transform_take {A B C : Type} (op : A -> B -> option C)
    (x : list A) (y : list B) (z0 : list C) :
  length z0 = length x ->
  transform x y z0 op = transform x (take (length x) y) z0 op.
Proof.
  intros Hz0.
  assert (Hiff : forall z, transform x y z0 op = Returns z <->
                           transform x (take (length x) y) z0 op = Returns z).
  { intros z. rewrite !transform_Returns by done.
    by rewrite take_take, Nat.min_id. }
  destruct (transform_cases op x y z0) as [Hu|[z Hz]].
  - destruct (transform_cases op x (take (length x) y) z0) as [Hu'|[z Hz]];
      [congruence|].
    apply Hiff in Hz. congruence.
  - rewrite Hz. symmetry. by apply Hiff.
Qed.

Section BinaryProperties.
Context {T : Type} {E : ElementType T}.
Variable std_pow : T -> T -> option T.

Lemma max_min_zip (x y : list T) :
  (length x <= length y)%nat ->
  max x y = Returns (zip_with std_max x y) /\
  min x y = Returns (zip_with std_min x y).
Proof.
  intros Hy. unfold max, min. by rewrite !transform_total by done.
Qed.

(** X5. [sub], [mul], [div], [max], [min] and [pow] never leave by an
    exception; they ignore the elements of the second operand past the
    length of the first; and with a second operand shorter than the first
    they read past its end and are undefined. *)
Theorem binary_operand_lengths (x y : list T) :
  (forall e,
     sub x y <> Throws e /\ mul x y <> Throws e /\ div x y <> Throws e /\
     max x y <> Throws e /\ min x y <> Throws e /\
     pow std_pow x y <> Throws e) /\
  (sub x y = sub x (take (length x) y) /\
   mul x y = mul x (take (length x) y) /\
   div x y = div x (take (length x) y) /\
   max x y = max x (take (length x) y) /\
   min x y = min x (take (length x) y) /\
   pow std_pow x y = pow std_pow x (take (length x) y)) /\
  ((length y < length x)%nat ->
   sub x y = Undefined /\ mul x y = Undefined /\ div x y = Undefined /\
   max x y = Undefined /\ min x y = Undefined /\
   pow std_pow x y = Undefined).
Proof.
  unfold sub, mul, div, max, min, pow. split; [|split].
  - intros e. repeat split; apply transform_from_not_Throws.
  - repeat split; by apply transform_take.
  - intros Hy. repeat split; by apply transform_short.
Qed.

(** X6. For operands of equal length, [max(x, y)] is
    [select(compare<less>(x, y), y, x)] and [min(x, y)] is
    [select(compare<less>(y, x), y, x)]. *)
Theorem max_min_as_select (x y : list T) :
  length x = length y ->
  max x y = (mask ← compare std_less x y; select mask y x) /\
  min x y = (mask ← compare std_less y x; select mask y x).
Proof.
  intros Hlen. unfold max, min.
  rewrite !transform_total by (done || lia).
  rewrite !compare_zip by lia. simpl.
  split.
  - destruct (select_Returns (zip_with std_less x y) y x)
      as (z & -> & Hz & Hsel); [rewrite length_zip_with_l; lia|lia|].
    f_equal. apply list_eq. intros i. rewrite lookup_zip_with.
    destruct (x !! i) as [a|] eqn:Ha; simpl.
    + destruct (lookup_lt_is_Some_2 y i) as [b Hb].
      { rewrite <- Hlen. by eapply lookup_lt_Some. }
      rewrite Hb. simpl.
      rewrite (Hsel i (std_less a b) b a); [done| |done..].
      by rewrite lookup_zip_with, Ha, Hb.
    + symmetry. apply lookup_ge_None_2. apply lookup_ge_None_1 in Ha. lia.
  - destruct (select_Returns (zip_with std_less y x) y x)
      as (z & -> & Hz & Hsel); [rewrite length_zip_with_l; lia|lia|].
    f_equal. apply list_eq. intros i. rewrite lookup_zip_with.
    destruct (x !! i) as [a|] eqn:Ha; simpl.
    + destruct (lookup_lt_is_Some_2 y i) as [b Hb].
      { rewrite <- Hlen. by eapply lookup_lt_Some. }
      rewrite Hb. simpl.
      rewrite (Hsel i (std_less b a) b a); [done| |done..].
      by rewrite lookup_zip_with, Hb, Ha.
    + symmetry. apply lookup_ge_None_2. apply lookup_ge_None_1 in Ha. lia.
Qed.
End BinaryProperties.

(** X4. With a second operand at least as long as the first, [max] and
    [min], on any element type, return a sequence of the length of the
    first operand that holds [std::max] and [std::min] of the two elements
    at every index; so does [pow] on [double] sequences with [std::pow]. *)
Theorem max_min_pow_pointwise :
  (forall (T : Type) (E : ElementType T) (x y : list T),
     (length x <= length y)%nat ->
     max x y = Returns (zip_with std_max x y) /\
     min x y = Returns (zip_with std_min x y) /\
     length (zip_with std_max x y) = length x /\
     length (zip_with std_min x y) = length x) /\
  (forall (std_pow : float -> float -> float) (x y : list float),
     (length x <= length y)%nat ->
     pow (fun a b => Some (std_pow a b)) x y
       = Returns (zip_with std_pow x y) /\
     length (zip_with std_pow x y) = length x).
Proof.
  split.
  - intros T E x y Hy. destruct (max_min_zip x y Hy) as [-> ->].
    by rewrite !length_zip_with_l by done.
  - intros std_pow x y Hy. unfold pow.
    rewrite transform_total by done.
    by rewrite length_zip_with_l by done.
Qed.

Lemma max_min_pow_pointwise_witness :
  max (E := int_element int32_t) [1; 9] [5; 2; 7] = Returns [5; 9] /\
  min (E := int_element int32_t) [1; 9] [5; 2; 7] = Returns [1; 2].
Proof.
  destruct max_min_pow_pointwise as [Hmaxmin _].
  destruct (Hmaxmin Z (int_element int32_t) [1; 9] [5; 2; 7])
    as (Hmax & Hmin & _); [simpl; lia|].
  by split.
Defined.

Lemma binary_operand_lengths_witness :
  sub (E := int_element int32_t) [5; 6] [1] = Undefined /\
  max (E := int_element int32_t) [5; 6] [1] = Undefined.
Proof.
  destruct (binary_operand_lengths (E := int_element int32_t)
              (fun a b => int_arith int32_t (a ^ b)) [5; 6] [1])
    as (_ & _ & Hshort).
  destruct Hshort as (Hsub & _ & _ & Hmax & _); [simpl; lia|].
  by split.
Defined.

Lemma max_min_as_select_witness :
  max (E := double_element) [1%float; nan] [2%float; 3%float]
  = (mask ← compare (std_less (ElementType := double_element))
              [1%float; nan] [2%float; 3%float];
     select (E := double_element) mask [2%float; 3%float] [1%float; nan]).
Proof.
  by destruct (max_min_as_select (E := double_element)
                 [1%float; nan] [2%float; 3%float] eq_refl) as [Hmax _].
Defined.

(** A total or partial [op] that agrees with [f] on the pairs visited. *)
Lemma transform_zip {A B C : Type} (op : A -> B -> option C) (f : A -> B -> C)
    (x : list A) (y : list B) (z0 : list C) :
  length z0 = length x -> (length x <= length y)%nat ->
  (forall i a b, x !! i = Some a -> y !! i = Some b -> op a b = Some (f a b)) ->
  transform x y z0 op = Returns (zip_with f x y).
Proof.
  intros Hz0 Hy Hop. apply transform_pointwise; [done..|]. split.
  - by apply length_zip_with_l.
  - intros i a b c Ha Hb Hc. rewrite lookup_zip_with, Ha, Hb in Hc.
    simpl in Hc. injection Hc as <-. by apply (Hop i).
Qed.

Lemma zip_with_agree {A B C : Type} (f g : A -> B -> C) (x : list A) (y : list B) :
  (forall a b, f a b = g a b) -> zip_with f x y = zip_with g x y.
Proof.
  intros Hfg. revert y. induction x as [|a x IH]; intros [|b y]; simpl; [done..|].
  by rewrite Hfg, IH.
Qed.

Lemma zip_with_swap {A C : Type} (f : A -> A -> C) (x y : list A) :
  (forall a b, f a b = f b a) -> zip_with f x y = zip_with f y x.
Proof.
  intros Hf. revert y. induction x as [|a x IH]; intros [|b y]; simpl; [done..|].
  by rewrite Hf, IH.
Qed.

(** *** Integral types *)

(** X7. On sequences of an integral type and equal length, [max] and [min]
    return the larger and the smaller of the two elements at every index,
    and do not depend on the order of the operands. *)
Theorem max_min_integral (ty : int_type) (x y : list Z) :
  length x = length y ->
  max (E := int_element ty) x y = Returns (zip_with Z.max x y) /\
  min (E := int_element ty) x y = Returns (zip_with Z.min x y) /\
  max (E := int_element ty) x y = max (E := int_element ty) y x /\
  min (E := int_element ty) x y = min (E := int_element ty) y x.
Proof.
  intros Hlen.
  assert (Hmax : forall a b, std_max (E := int_element ty) a b = Z.max a b).
  { intros a b. unfold std_max. simpl. destruct (Z.ltb_spec a b); lia. }
  assert (Hmin : forall a b, std_min (E := int_element ty) a b = Z.min a b).
  { intros a b. unfold std_min. simpl. destruct (Z.ltb_spec b a); lia. }
  destruct (max_min_zip (E := int_element ty) x y) as (-> & ->); [lia|].
  destruct (max_min_zip (E := int_element ty) y x) as (-> & ->); [lia|].
  rewrite !(zip_with_agree _ _ _ _ Hmax), !(zip_with_agree _ _ _ _ Hmin).
  repeat split; f_equal; apply zip_with_swap; intros a b; lia.
Qed.

Lemma max_min_integral_witness :
  max (E := int_element int8_t) [3; -7] [-2; 4] = Returns (zip_with Z.max [3; -7] [-2; 4]).
Proof.
  by destruct (max_min_integral int8_t [3; -7] [-2; 4] eq_refl) as (Hmax & _).
Defined.

(** *** [double] *)

Lemma float_ltb_nan (a : float) :
  PrimFloat.ltb a nan = false /\ PrimFloat.ltb nan a = false.
Proof.
  rewrite !ltb_spec.
  assert (Hnan : Prim2SF nan = S754_nan) by reflexivity.
  rewrite Hnan. by destruct (Prim2SF a).
Qed.

(** X8. On [double] sequences of equal length, [max] and [min] treat NaN
    by position: where the second operand holds NaN the result holds the
    element of the first operand, and where the first operand holds NaN
    the result holds NaN. *)
Theorem max_min_nan (x y : list float) :
  length x = length y ->
  exists zmax zmin,
    max (E := double_element) x y = Returns zmax /\
    min (E := double_element) x y = Returns zmin /\
    forall i a b, x !! i = Some a -> y !! i = Some b ->
      (b = nan -> zmax !! i = Some a /\ zmin !! i = Some a) /\
      (a = nan -> zmax !! i = Some nan /\ zmin !! i = Some nan).
Proof.
  intros Hlen.
  destruct (max_min_zip (E := double_element) x y) as (Hmax & Hmin); [lia|].
  eexists _, _. split; [exact Hmax|]. split; [exact Hmin|].
  intros i a b Ha Hb. rewrite !lookup_zip_with, Ha, Hb. simpl.
  unfold std_max, std_min. simpl. split; intros ->.
  - destruct (float_ltb_nan a) as [-> ->]. done.
  - destruct (float_ltb_nan b) as [-> ->]. done.
Qed.

Lemma max_min_nan_witness :
  exists zmax,
    max (E := double_element) [1%float; nan] [nan; 1%float] = Returns zmax /\
    zmax !! 0%nat = Some 1%float /\ zmax !! 1%nat = Some nan.
Proof.
  destruct (max_min_nan [1%float; nan] [nan; 1%float] eq_refl)
    as (zmax & zmin & Hmax & _ & Hi).
  exists zmax. split; [done|]. split.
  - by destruct (Hi 0%nat 1%float nan eq_refl eq_refl) as [[-> _] _].
  - by destruct (Hi 1%nat nan 1%float eq_refl eq_refl) as [_ [-> _]].
Defined.

(** ** Conversion between integral types *)

Lemma standard_bits_pos (ty : int_type) : standard ty -> 8 <= bits ty.
Proof. unfold standard. lia. Qed.


Lemma wrap_standard_id (ty : int_type) (v : Z) :
  standard ty -> in_range ty v = true -> wrap ty v = v.
Proof.
  intros Hty Hv. apply in_range_bounds in Hv. revert Hty Hv.
  unfold standard, wrap, int_min, int_max. destruct ty as [[|] w]. all: simpl.
  all: intros [ -> | [ -> | [ -> | -> ] ] ] Hv; pow_consts.
  all: rewrite Z.mod_small; lia.
Qed.

(** A converted value differs from the original by a multiple of
    [2^bits]. *)
Lemma wrap_shift (ty : int_type) (v : Z) :
  standard ty -> exists k, wrap ty v = v + k * 2 ^ bits ty.
Proof.
  intros Hty. apply standard_bits_pos in Hty.
  assert (Hpos : 0 < 2 ^ bits ty) by (apply Z.pow_pos_nonneg; lia).
  unfold wrap. destruct (is_signed ty).
  - exists (- ((v + 2 ^ (bits ty - 1)) / 2 ^ bits ty)).
    rewrite Z.mod_eq by lia. lia.
  - exists (- (v / 2 ^ bits ty)). rewrite Z.mod_eq by lia. lia.
Qed.

Lemma wrap_periodic (ty : int_type) (v k : Z) :
  wrap ty (v + k * 2 ^ bits ty) = wrap ty v.
Proof.
  unfold wrap. destruct (is_signed ty).
  - replace (v + k * 2 ^ bits ty + 2 ^ (bits ty - 1))
      with (v + 2 ^ (bits ty - 1) + k * 2 ^ bits ty) by lia.
    by rewrite Z_mod_plus_full.
  - by rewrite Z_mod_plus_full.
Qed.

(** Narrowing after a conversion to a type at least as wide is narrowing
    of the original value. *)
Lemma wrap_narrow (T1 T2 : int_type) (v : Z) :
  standard T1 -> standard T2 -> bits T1 <= bits T2 ->
  wrap T1 (wrap T2 v) = wrap T1 v.
Proof.
  intros H1 H2 Hle. destruct (wrap_shift T2 v H2) as [k ->].
  apply standard_bits_pos in H1.
  replace (2 ^ bits T2) with (2 ^ (bits T2 - bits T1) * 2 ^ bits T1).
  - rewrite Z.mul_assoc. apply wrap_periodic.
  - rewrite <- Z.pow_add_r by lia. f_equal. lia.
Qed.

Lemma convert_map (T1 : int_type) (x : list Z) :
  convert T1 x = Returns (map (wrap T1) x).
Proof. unfold convert. apply map_loop. by rewrite length_replicate. Qed.



(** X10. Converting a sequence of values of an integral type [T1] to a
    type [T2] at least as wide, of either signedness, and back to [T1]
    returns the original sequence. *)
Theorem convert_round_trip (T1 T2 : int_type) (x : list Z) :
  standard T1 -> standard T2 -> bits T1 <= bits T2 ->
  Forall (fun v => int_min T1 <= v <= int_max T1) x ->
  (y ← convert T2 x; convert T1 y) = Returns x.
Proof.
  intros H1 H2 Hle Hx. rewrite !convert_map. simpl. rewrite convert_map.
  f_equal. rewrite <- list_fmap_compose.
  rewrite <- (list_fmap_id x) at 2. apply Forall_fmap_ext_1.
  eapply Forall_impl; [done|]. simpl. intros v Hv.
  rewrite wrap_narrow by done.
  apply wrap_standard_id; [done|]. by apply in_range_bounds.
Qed.

Lemma convert_round_trip_witness :
  (y ← convert uint32_t [-128; -1; 127]; convert int8_t y)
  = Returns [-128; -1; 127].
Proof.
  apply (convert_round_trip int8_t uint32_t [-128; -1; 127]).
  - by left.
  - by right; right; left.
  - by vm_compute.
  - repeat constructor; by vm_compute.
Defined.

(** ** Integer arithmetic on sequences *)

(** Two calls of [std::transform] that return the same results are the
    same outcome: neither can throw. *)
Lemma transform_outcome_eq {A B C A' B' : Type}
    (op : A -> B -> option C) (op' : A' -> B' -> option C)
    (x : list A) (y : list B) (z0 : list C)
    (x' : list A') (y' : list B') (z0' : list C) :
  (forall z, transform x y z0 op = Returns z <->
             transform x' y' z0' op' = Returns z) ->
  transform x y z0 op = transform x' y' z0' op'.
Proof.
  intros Hiff.
  destruct (transform_cases op x y z0) as [Hu|[z Hz]].
  - destruct (transform_cases op' x' y' z0') as [Hu'|[z Hz]]; [congruence|].
    apply Hiff in Hz. congruence.
  - rewrite Hz. symmetry. by apply Hiff.
Qed.

Lemma transform_commutative {A C : Type} (op : A -> A -> option C)
    (x y : list A) (z0 z0' : list C) :
  (forall a b, op a b = op b a) ->
  length x = length y -> length z0 = length x -> length z0' = length y ->
  transform x y z0 op = transform y x z0' op.
Proof.
  intros Hop Hlen Hz0 Hz0'. apply transform_outcome_eq. intros z.
  rewrite !transform_pointwise by (done || lia).
  rewrite Hlen. split; intros [Hz HR]; (split; [done|]);
    intros i a b c Ha Hb Hc; rewrite Hop; by apply (HR i).
Qed.

(** X11. On sequences of an integral type and equal length, [add] and
    [mul] do not depend on the order of the operands. *)
Theorem add_mul_commutative (ty : int_type) (x y : list Z) :
  length x = length y ->
  add (E := int_element ty) x y = add (E := int_element ty) y x /\
  mul (E := int_element ty) x y = mul (E := int_element ty) y x.
Proof.
  intros Hlen. unfold add, mul. split.
  - apply transform_commutative; [|done..]. intros a b. simpl.
    by rewrite Z.add_comm.
  - apply transform_commutative; [|done..]. intros a b. simpl.
    by rewrite Z.mul_comm.
Qed.

Lemma add_mul_commutative_witness :
  add (E := int_element int32_t) [1; 2147483647] [2; 1]
  = add (E := int_element int32_t) [2; 1] [1; 2147483647].
Proof.
  by destruct (add_mul_commutative int32_t [1; 2147483647] [2; 1] eq_refl).
Defined.

(** With operands of unequal length the order does matter. *)
Example add_unequal_lengths_not_commutative :
  add (E := int_element int32_t) [1] [2; 3] = Returns [3] /\
  add (E := int_element int32_t) [2; 3] [1] = Undefined.
Proof. by split. Qed.

(** The truncated quotient stays within the limits of a signed type,
    except for the minimum divided by [-1]. *)
Lemma quot_within (M a b : Z) :
  2 <= M -> - M <= a <= M - 1 -> b <> 0 -> ~ (a = - M /\ b = -1) ->
  - M <= a ÷ b <= M - 1.
Proof.
  intros HM Ha Hb Hmin.
  destruct (Z_lt_le_dec a 0) as [Han|Hap], (Z_lt_le_dec b 0) as [Hbn|Hbp].
  - replace a with (- - a) by lia. replace b with (- - b) by lia.
    rewrite Z.quot_opp_opp by lia. rewrite Z.quot_div_nonneg by lia.
    split; [pose proof (Z.div_pos (- a) (- b)); lia|].
    destruct (decide (b = -1)) as [->|Hb1].
    + change (- -1) with 1. rewrite Z.div_1_r. lia.
    + apply Z.div_le_upper_bound; [lia|]. nia.
  - replace a with (- - a) by lia.
    rewrite Z.quot_opp_l by lia. rewrite Z.quot_div_nonneg by lia.
    pose proof (Z.div_pos (- a) b).
    assert (- a / b <= - a) by (apply Z.div_le_upper_bound; [lia|nia]).
    lia.
  - replace b with (- - b) by lia.
    rewrite Z.quot_opp_r by lia. rewrite Z.quot_div_nonneg by lia.
    pose proof (Z.div_pos a (- b)).
    assert (a / - b <= a) by (apply Z.div_le_upper_bound; [lia|nia]).
    lia.
  - rewrite Z.quot_div_nonneg by lia.
    pose proof (Z.div_pos a b).
    assert (a / b <= a) by (apply Z.div_le_upper_bound; [lia|nia]).
    lia.
Qed.

(** When the quotient of two values of a signed type at least as wide as
    [int] has a value. *)
Lemma int_divides_defined (ty : int_type) (a b : Z) :
  is_signed ty = true -> bits ty = 32 \/ bits ty = 64 ->
  in_range ty a = true ->
  int_divides ty a b = (if decide (b <> 0 /\ ~ (a = int_min ty /\ b = -1))
                        then Some (a ÷ b) else None).
Proof.
  intros Hs Hbits Ha. apply in_range_bounds in Ha.
  unfold int_divides. destruct (Z.eqb_spec b 0) as [->|Hb].
  { rewrite decide_False; [done|]. intros [? _]. done. }
  unfold int_arith, in_range.
  destruct ty as [sg w]. simpl in *. subst sg.
  assert (Hw : (w <? 32) = false) by (destruct Hbits as [ -> | -> ]; done).
  rewrite Hw. unfold int_min, int_max in *. simpl in *.
  assert (HM : exists M, 2 <= M /\ 2 ^ (w - 1) = M).
  { destruct Hbits as [ -> | -> ]; eexists; (split; [|reflexivity]); done. }
  destruct HM as (M & HM & HMeq). rewrite HMeq in *.
  destruct (decide (a = - M /\ b = -1)) as [[-> ->]|Hmin].
  - rewrite decide_False by (intros [_ Hn]; by apply Hn).
    change (-1) with (Z.opp 1). rewrite Z.quot_opp_opp, Z.quot_1_r by lia.
    destruct (Z.leb_spec M (M - 1)); [lia|]. by rewrite andb_false_r.
  - rewrite decide_True by done.
    pose proof (quot_within M a b HM Ha Hb Hmin) as Hq.
    destruct (Z.leb_spec (- M) (a ÷ b)); [|lia].
    destruct (Z.leb_spec (a ÷ b) (M - 1)); [|lia]. done.
Qed.

(** X12. For sequences of equal length of a signed type at least as wide
    as [int] ([int32_t], [int64_t]), [div] returns exactly when no divisor
    is zero and no element pair is the minimum of the type divided by
    [-1]; the result then holds the quotient truncated towards zero at
    every index. *)
Theorem div_signed_defined (ty : int_type) (x y : list Z) :
  is_signed ty = true -> bits ty = 32 \/ bits ty = 64 ->
  length x = length y -> Forall (fun v => int_min ty <= v <= int_max ty) x ->
  ((exists z, div (E := int_element ty) x y = Returns z) <->
   forall i a b, x !! i = Some a -> y !! i = Some b ->
     b <> 0 /\ ~ (a = int_min ty /\ b = -1)) /\
  (forall z, div (E := int_element ty) x y = Returns z ->
     z = zip_with Z.quot x y).
Proof.
  intros Hs Hbits Hlen Hx.
  assert (Hop : forall i a b, x !! i = Some a -> y !! i = Some b ->
    int_divides ty a b
    = (if decide (b <> 0 /\ ~ (a = int_min ty /\ b = -1))
       then Some (a ÷ b) else None)).
  { intros i a b Ha Hb. apply int_divides_defined; [done..|].
    apply in_range_bounds. by apply (Forall_lookup_1 _ _ _ _ Hx Ha). }
  assert (Hret : forall z, div (E := int_element ty) x y = Returns z ->
    (forall i a b, x !! i = Some a -> y !! i = Some b ->
       b <> 0 /\ ~ (a = int_min ty /\ b = -1)) /\
    z = zip_with Z.quot x y).
  { intros z Hz. unfold div in Hz.
    apply transform_pointwise in Hz as [Hlenz HR]; [|done|lia].
    split.
    - intros i a b Ha Hb.
      destruct (lookup_lt_is_Some_2 z i) as [c Hc].
      { rewrite Hlenz. by eapply lookup_lt_Some. }
      specialize (HR i a b c Ha Hb Hc). simpl in HR.
      rewrite (Hop i a b Ha Hb) in HR. by case_decide.
    - apply list_eq. intros i. rewrite lookup_zip_with.
      destruct (z !! i) as [c|] eqn:Hc.
      + destruct (lookup_lt_is_Some_2 x i) as [a Ha].
        { rewrite <- Hlenz. by eapply lookup_lt_Some. }
        destruct (lookup_lt_is_Some_2 y i) as [b Hb].
        { rewrite <- Hlen, <- Hlenz. by eapply lookup_lt_Some. }
        rewrite Ha, Hb. simpl.
        specialize (HR i a b c Ha Hb Hc). simpl in HR.
        rewrite (Hop i a b Ha Hb) in HR. case_decide; congruence.
      + apply lookup_ge_None_1 in Hc.
        rewrite (lookup_ge_None_2 x) by lia. done. }
  split; [split|].
  - intros [z Hz]. exact (proj1 (Hret z Hz)).
  - intros Hdef. exists (zip_with Z.quot x y). unfold div.
    apply transform_zip; [done|lia|].
    intros i a b Ha Hb. simpl. rewrite (Hop i a b Ha Hb).
    rewrite decide_True; [done|]. by apply (Hdef i).
  - intros z Hz. exact (proj2 (Hret z Hz)).
Qed.

Lemma div_signed_defined_witness :
  (exists z, div (E := int_element int32_t) [-7; 9] [2; -4] = Returns z) /\
  forall z, div (E := int_element int32_t) [-7; 9] [2; -4] = Returns z ->
    z = [-3; -2].
Proof.
  assert (Hx : Forall (fun v => int_min int32_t <= v <= int_max int32_t) [-7; 9]).
  { repeat constructor; by vm_compute. }
  destruct (div_signed_defined int32_t [-7; 9] [2; -4] eq_refl
              (or_introl eq_refl) eq_refl Hx) as [_ Hz].
  split; [by eexists|]. apply Hz.
Defined.

Example div_minimum_by_minus_one :
  div (E := int_element int32_t) [-2147483648] [-1] = Undefined.
Proof. reflexivity. Qed.

Lemma mod_add_sub (M a b : Z) :
  0 <= a < M -> ((a + b) mod M - b) mod M = a.
Proof.
  intros Ha. rewrite Zminus_mod_idemp_l.
  replace (a + b - b) with a by lia. apply Z.mod_small. lia.
Qed.

Ltac unsigned_width a b M :=
  pose proof (Z.mod_pos_bound (a + b) M);
  pose proof (mod_add_sub M a b);
  repeat match goal with
  | |- context [(?u <=? ?v)] => destruct (Z.leb_spec u v); try lia
  end; simpl; split; f_equal; lia.

(** Sum and difference on an unsigned type, for values of the type. *)
Lemma unsigned_plus_minus (ty : int_type) (a b : Z) :
  is_signed ty = false -> standard ty ->
  in_range ty a = true -> in_range ty b = true ->
  int_arith ty (a + b) = Some (wrap ty (a + b)) /\
  int_arith ty (wrap ty (a + b) - b) = Some a.
Proof.
  intros Hs Hty Ha Hb. apply in_range_bounds in Ha, Hb. revert Hty Ha Hb.
  destruct ty as [sg w]. simpl in Hs. subst sg.
  unfold standard, int_arith, in_range, wrap, int_min, int_max. simpl.
  intros [ -> | [ -> | [ -> | -> ] ] ] Ha Hb; simpl; pow_consts.
  - unsigned_width a b 256.
  - unsigned_width a b 65536.
  - unsigned_width a b 4294967296.
  - unsigned_width a b 18446744073709551616.
Qed.

(** X13. On sequences of equal length of an unsigned integral type,
    subtracting [y] from [add(x, y)] returns [x], whether or not the sums
    wrapped around. *)
Theorem add_sub_round_trip (ty : int_type) (x y : list Z) :
  is_signed ty = false -> standard ty -> length x = length y ->
  Forall (fun v => int_min ty <= v <= int_max ty) x ->
  Forall (fun v => int_min ty <= v <= int_max ty) y ->
  (s ← add (E := int_element ty) x y; sub (E := int_element ty) s y)
  = Returns x.
Proof.
  intros Hs Hty Hlen Hx Hy.
  assert (Hel : forall i a b, x !! i = Some a -> y !! i = Some b ->
    int_arith ty (a + b) = Some (wrap ty (a + b)) /\
    int_arith ty (wrap ty (a + b) - b) = Some a).
  { intros i a b Ha Hb. apply unsigned_plus_minus; [done..| |].
    - apply in_range_bounds. by apply (Forall_lookup_1 _ _ _ _ Hx Ha).
    - apply in_range_bounds. by apply (Forall_lookup_1 _ _ _ _ Hy Hb). }
  unfold add. rewrite (transform_zip _ (fun a b => wrap ty (a + b))); [|done|lia|].
  2:{ intros i a b Ha Hb. simpl. by apply (Hel i). }
  simpl. unfold sub. apply transform_pointwise; [done| |].
  { rewrite length_zip_with_l; lia. }
  split; [by rewrite length_zip_with_l by lia|].
  intros i s b c Hs' Hb Hc. simpl.
  apply lookup_zip_with_Some in Hs' as (a & b' & -> & Ha & Hb').
  replace b' with b in * by congruence. replace c with a by congruence.
  by apply (Hel i).
Qed.

Lemma add_sub_round_trip_witness :
  (s ← add (E := int_element uint32_t) [4294967295; 7] [1; 8];
   sub (E := int_element uint32_t) s [1; 8]) = Returns [4294967295; 7].
Proof.
  apply (add_sub_round_trip uint32_t [4294967295; 7] [1; 8]).
  - reflexivity.
  - by right; right; left.
  - reflexivity.
  - repeat constructor; by vm_compute.
  - repeat constructor; by vm_compute.
Defined.

(** ** [select] *)

Section SelectProperties.
Context {T : Type} {E : ElementType T}.

(** [select] with every element read within bounds. *)
Lemma select_in_bounds (s : list bool) (x y : list T) :
  (length x <= length s)%nat ->
  (forall i, (i < length x)%nat -> s !! i = Some false -> (i < length y)%nat) ->
  exists z, select s x y = Returns z /\ length z = length x /\
    forall i (si : bool) a, s !! i = Some si -> x !! i = Some a ->
      z !! i = if si then Some a else y !! i.
Proof.
  intros Hs Hy. unfold select, for_loop. rewrite length_replicate.
  pose (P := fun (i : nat) (z : list T) =>
    length z = length x /\
    forall k (si : bool) a, (k < i)%nat ->
      s !! k = Some si -> x !! k = Some a ->
      z !! k = if si then Some a else y !! k).
  destruct (for_from_invariant P
    (fun i z => si ← read s i;
                v ← (if si : bool then read x i else read y i);
                write z i v)
    0 (length x) (replicate (length x) elt_zero)) as (z & Hz & Hlen & HP).
  - split; [apply length_replicate|]. intros; lia.
  - intros i z Hi [Hlen HP].
    destruct (read_in_bounds s i) as (si & Hsi & Hrs); [lia|].
    destruct (read_in_bounds x i) as (a & Ha & Hra); [lia|].
    assert (Hv : exists v, (if si then read x i else read y i) = Returns v /\
                           Some v = if si then Some a else y !! i).
    { destruct si.
      - by exists a.
      - destruct (read_in_bounds y i) as (b & Hb & Hrb); [apply Hy; [lia|done]|].
        by exists b. }
    destruct Hv as (v & Hrv & Hv).
    exists (<[i:=v]> z). split.
    + rewrite Hrs. simpl. rewrite Hrv. simpl. apply write_in_bounds. lia.
    + split; [by rewrite length_insert|].
      intros k sk a' Hk Hsk Ha'.
      destruct (decide (k = i)) as [->|Hne].
      * rewrite list_lookup_insert_eq by lia. by simplify_eq.
      * rewrite list_lookup_insert_ne by done. apply HP; [lia|done..].
  - exists z. split; [done|]. split; [done|].
    intros i si a Hsi Ha. apply HP; [|done..].
    apply lookup_lt_Some in Ha. lia.
Qed.

(** X14. [select] returns exactly when the mask is at least as long as
    [x] and [y] reaches every index below the length of [x] at which the
    mask is false; the elements of [y] at the indices where the mask is
    true are never read. *)
Theorem select_defined (s : list bool) (x y : list T) :
  (exists z, select s x y = Returns z) <->
  (length x <= length s)%nat /\
  forall i, (i < length x)%nat -> s !! i = Some false -> (i < length y)%nat.
Proof.
  split.
  - intros [z Hz]. split.
    + destruct (decide (length x <= length s)%nat) as [|Hn]; [done|].
      rewrite select_mask_short in Hz by lia. done.
    + intros i Hi Hsi.
      destruct (decide (i < length y)%nat) as [|Hn]; [done|].
      rewrite (select_operand_short s x y i) in Hz by (done || lia). done.
  - intros [Hs Hy].
    destruct (select_in_bounds s x y Hs Hy) as (z & Hz & _). by exists z.
Qed.

(** X15. With a mask that is true throughout, [select] returns [x]
    whatever [y] is, the empty sequence included; with a mask that is
    false throughout it returns the leading elements of [y]. *)
Theorem select_constant_mask (n : nat) (x y : list T) :
  (length x <= n)%nat ->
  select (replicate n true) x y = Returns x /\
  ((length x <= length y)%nat ->
   select (replicate n false) x y = Returns (take (length x) y)).
Proof.
  intros Hn. split.
  - destruct (select_in_bounds (replicate n true) x y) as (z & -> & Hlen & Hz).
    + by rewrite length_replicate.
    + intros i Hi Hf. apply lookup_replicate in Hf as [? _]. done.
    + f_equal. apply list_eq. intros i.
      destruct (x !! i) as [a|] eqn:Ha.
      * apply (Hz i true a); [|done].
        apply lookup_replicate_2. apply lookup_lt_Some in Ha. lia.
      * apply lookup_ge_None_2. apply lookup_ge_None_1 in Ha. lia.
  - intros Hy.
    destruct (select_in_bounds (replicate n false) x y) as (z & -> & Hlen & Hz).
    + by rewrite length_replicate.
    + intros i Hi _. lia.
    + f_equal. apply list_eq. intros i.
      destruct (x !! i) as [a|] eqn:Ha.
      * rewrite (Hz i false a); [|by apply lookup_replicate_2;
                                    apply lookup_lt_Some in Ha; lia|done].
        rewrite lookup_take_lt; [done|]. by eapply lookup_lt_Some.
      * apply lookup_ge_None_1 in Ha.
        rewrite lookup_ge_None_2 by lia.
        symmetry. apply lookup_ge_None_2. rewrite length_take. lia.
Qed.
End SelectProperties.

Lemma select_defined_witness :
  exists z, select (E := int_element int32_t) [true; false; true] [1; 2; 3] [10; 20]
    = Returns z.
Proof.
  apply (select_defined (E := int_element int32_t)). split; [simpl; lia|].
  intros [|[|[|i]]] Hi Hs; simpl in *; (lia || discriminate).
Defined.

Lemma select_constant_mask_witness :
  select (E := int_element int32_t) (replicate 3 true) [1; 2] [] = Returns [1; 2] /\
  select (E := int_element int32_t) (replicate 3 false) [1; 2] [7; 8; 9]
    = Returns (take (length [1; 2]) [7; 8; 9]).
Proof.
  destruct (select_constant_mask (E := int_element int32_t) 3 [1; 2] [])
    as [Htrue _]; [simpl; lia|].
  destruct (select_constant_mask (E := int_element int32_t) 3 [1; 2] [7; 8; 9])
    as [_ Hfalse]; [simpl; lia|].
  split; [done|]. apply Hfalse. simpl. lia.
Defined.

(** ** Structural operations *)

Lemma broadcast_in_dim_concat {T : Type} (x : list T) (n : nat) :
  broadcast_in_dim x n = Returns (concat (replicate n x)).
Proof. unfold broadcast_in_dim, for_loop. by rewrite broadcast_loop. Qed.

(** X16. Repetition composes: repeating [x] [m + n] times is the
    concatenation of [m] and of [n] repetitions; repeating [n] times the
    [m]-fold repetition is the [n * m]-fold repetition; one repetition
    returns [x]; and repeating the empty sequence returns the empty
    sequence. *)
Theorem broadcast_in_dim_composes {T : Type} (x : list T) (m n : nat) :
  broadcast_in_dim x (m + n)
    = (a ← broadcast_in_dim x m; b ← broadcast_in_dim x n;
       Returns (concatenate a b)) /\
  (a ← broadcast_in_dim x m; broadcast_in_dim a n)
    = broadcast_in_dim x (n * m) /\
  broadcast_in_dim x 1 = Returns x /\
  broadcast_in_dim (@nil T) n = Returns [].
Proof.
  rewrite !broadcast_in_dim_concat. simpl.
  rewrite !broadcast_in_dim_concat. simpl.
  repeat split; f_equal.
  - unfold concatenate. rewrite insert_range_end.
    by rewrite replicate_add, concat_app.
  - induction n as [|n IH]; simpl; [done|].
    by rewrite IH, replicate_add, concat_app.
  - apply app_nil_r.
  - induction n as [|n IH]; simpl; done.
Qed.

(** X17. The operands of [concatenate] are recovered from its result: the
    first [length x] elements are [x] and the remaining ones are [y]; the
    empty sequence is neutral on either side. *)
Theorem concatenate_splits {T : Type} (x y : list T) :
  take (length x) (concatenate x y) = x /\
  drop (length x) (concatenate x y) = y /\
  concatenate [] y = y /\ concatenate x [] = x.
Proof.
  unfold concatenate. rewrite !insert_range_end.
  repeat split.
  - by rewrite take_app_length.
  - by rewrite drop_app_length.
  - apply app_nil_r.
Qed.

Lemma transform_app {A B C : Type} (op : A -> B -> option C)
    (x1 x2 : list A) (y1 y2 : list B) (z01 z02 z0 z1 z2 : list C) :
  length x1 = length y1 ->
  length z01 = length x1 -> length z02 = length x2 ->
  length z0 = length (x1 ++ x2) ->
  transform x1 y1 z01 op = Returns z1 ->
  transform x2 y2 z02 op = Returns z2 ->
  transform (x1 ++ x2) (y1 ++ y2) z0 op = Returns (z1 ++ z2).
Proof.
  intros Hlen H01 H02 H0 Hz1 Hz2.
  apply transform_Returns in Hz1; [|done].
  apply transform_Returns in Hz2; [|done].
  apply transform_Returns; [done|].
  rewrite take_ge in Hz1 by lia.
  rewrite length_app, Hlen, take_app_add.
  by apply Forall3_app.
Qed.

(** X18. The elementwise operations distribute over [concatenate]: when
    [x1] and [y1] have the same length and the operation returns on
    [(x1, y1)] and on [(x2, y2)], it returns the concatenation of the two
    results on [(concatenate(x1, x2), concatenate(y1, y2))]. *)
Theorem elementwise_concatenate {T : Type} {E : ElementType T}
    (x1 x2 y1 y2 z1 z2 : list T) :
  length x1 = length y1 ->
  (add x1 y1 = Returns z1 -> add x2 y2 = Returns z2 ->
   add (concatenate x1 x2) (concatenate y1 y2) = Returns (concatenate z1 z2)) /\
  (sub x1 y1 = Returns z1 -> sub x2 y2 = Returns z2 ->
   sub (concatenate x1 x2) (concatenate y1 y2) = Returns (concatenate z1 z2)) /\
  (mul x1 y1 = Returns z1 -> mul x2 y2 = Returns z2 ->
   mul (concatenate x1 x2) (concatenate y1 y2) = Returns (concatenate z1 z2)) /\
  (div x1 y1 = Returns z1 -> div x2 y2 = Returns z2 ->
   div (concatenate x1 x2) (concatenate y1 y2) = Returns (concatenate z1 z2)).
Proof.
  intros Hlen. unfold concatenate. rewrite !insert_range_end.
  unfold add, sub, mul, div.
  repeat split; intros H1 H2;
    by apply (transform_app _ x1 x2 y1 y2 x1 x2).
Qed.

Lemma elementwise_concatenate_witness :
  add (E := int_element int32_t) (concatenate [1] [2; 3]) (concatenate [10] [20; 30])
  = Returns (concatenate [11] [22; 33]).
Proof.
  destruct (elementwise_concatenate (E := int_element int32_t)
              [1] [2; 3] [10] [20; 30] [11] [22; 33] eq_refl) as (Hadd & _).
  apply Hadd; reflexivity.
Defined.

(** ** Uniform sampling: counts at the edges *)

Lemma accumulate_cons {A B : Type} (op : A -> B -> option A)
    (b : B) (xs : list B) (init : A) :
  accumulate (b :: xs) init op
  = (init' ← of_option (op init b); accumulate xs init' op).
Proof. reflexivity. Qed.

Lemma accumulate_from_zero (shape : list Z) :
  Forall (fun d => 0 <= d <= int_max int32_t) shape ->
  accumulate shape 0 multiply_into_int = Returns 0.
Proof.
  induction 1 as [|d shape Hd Hshape IH]; [done|].
  rewrite accumulate_cons, multiply_into_int_exact by done.
  rewrite Z.mul_0_l. exact IH.
Qed.

Lemma accumulate_zero_dimension (shape : list Z) (init : Z) :
  Forall (fun d => 0 <= d <= int_max int32_t) shape ->
  in_range int32_t init = true -> 0 ∈ shape ->
  accumulate shape init multiply_into_int = Returns 0.
Proof.
  intros Hshape. revert init.
  induction Hshape as [|d shape Hd Hshape IH]; intros init Hinit Hzero.
  { by apply elem_of_nil in Hzero. }
  apply in_range_bounds in Hinit.
  unfold int_min, int_max in Hd, Hinit. simpl in Hd, Hinit. pow_consts.
  rewrite accumulate_cons, multiply_into_int_exact.
  2:{ apply in_range_bounds. unfold int_min, int_max. simpl. pow_consts. nia. }
  apply elem_of_cons in Hzero as [<-|Hzero].
  - rewrite Z.mul_0_r. by apply accumulate_from_zero.
  - apply IH; [apply wrap_int32_in_range|done].
Qed.

Section RngEdges.
Context {Engine : Type}.
Variable mt19937 : Z -> Engine.
Variable draw : Z -> Z -> Engine -> Z * Engine.

(** X19. A shape whose accumulated count is negative makes [rng_uniform]
    leave by [std::length_error], with no samples: the count converted to
    [size_t] exceeds the largest size of a vector.  A single dimension
    whose conversion to [int] is negative is such a shape; that is every
    dimension from [-2^31] to [-1]. *)
Theorem rng_uniform_negative_count (ty : int_type) (low high : Z)
    (shape : list Z) (rd n d : Z) :
  standard ty -> in_range ty low = true -> in_range ty high = true ->
  low < high ->
  (sample_count shape = Returns n -> n < 0 ->
   rng_uniform mt19937 draw ty low high shape rd = Throws LengthError) /\
  (in_range int64_t d = true -> wrap int32_t d < 0 ->
   rng_uniform mt19937 draw ty low high [d] rd = Throws LengthError) /\
  (int_min int32_t <= d < 0 ->
   rng_uniform mt19937 draw ty low high [d] rd = Throws LengthError).
Proof.
  intros Hty Hlow Hhigh Hlt.
  pose proof (high_minus_one ty low high Hty Hlow Hhigh Hlt) as Hb.
  assert (Hneg : forall shape' n', sample_count shape' = Returns n' -> n' < 0 ->
    rng_uniform mt19937 draw ty low high shape' rd = Throws LengthError).
  { intros shape' n' Hn Hn0.
    pose proof (sample_count_in_range _ _ Hn) as Hn32.
    apply in_range_bounds in Hn32.
    unfold rng_uniform. rewrite Hn, Hb. simpl.
    rewrite decide_True by lia.
    by rewrite vector_sized_negative by lia. }
  assert (Hdim : in_range int64_t d = true -> wrap int32_t d < 0 ->
    rng_uniform mt19937 draw ty low high [d] rd = Throws LengthError).
  { intros Hd Hw. apply (Hneg [d] (wrap int32_t d)); [|done].
    by apply sample_count_singleton. }
  split; [apply Hneg|]. split; [exact Hdim|].
  intros Hd. unfold int_min in Hd. simpl in Hd. pow_consts.
  assert (Hw : wrap int32_t d = d).
  { unfold wrap. simpl. pow_consts. rewrite Z.mod_small; lia. }
  apply Hdim; [|lia].
  apply in_range_bounds. unfold int_min, int_max. simpl. pow_consts. lia.
Qed.

(** A negative dimension outside the range of [int] can convert to a
    positive count. *)
Example sample_count_negative_dimension :
  sample_count [-4294967295] = Returns 1.
Proof. reflexivity. Qed.

(** X20. For a shape whose dimensions are non-negative [int] values and
    hold a zero, [rng_uniform] returns the empty sequence. *)
Theorem rng_uniform_zero_dimension (ty : int_type) (low high : Z)
    (shape : list Z) (rd : Z) :
  standard ty -> in_range ty low = true -> in_range ty high = true ->
  low < high ->
  Forall (fun d => 0 <= d <= int_max int32_t) shape -> 0 ∈ shape ->
  rng_uniform mt19937 draw ty low high shape rd = Returns [].
Proof.
  intros Hty Hlow Hhigh Hlt Hshape Hzero.
  pose proof (high_minus_one ty low high Hty Hlow Hhigh Hlt) as Hb.
  assert (Hn : sample_count shape = Returns 0).
  { by apply accumulate_zero_dimension. }
  unfold rng_uniform. rewrite Hn, Hb. simpl.
  rewrite decide_True by lia.
  rewrite vector_sized_nonneg; [done|by vm_compute|].
  pose proof (max_size_lower ty Hty) as Hmax.
  change (wrap uint64_t 0) with 0.
  unfold int_max in Hmax. simpl in Hmax. pow_consts. lia.
Qed.

(** The contract of [std::uniform_int_distribution<T>(a, b)]. *)
Hypothesis draw_closed :
  forall a b gen, a <= b -> a <= (draw a b gen).1 <= b.

(** X21. For a shape of positive dimensions whose product fits an [int],
    [rng_uniform] returns exactly as many samples as the product of the
    dimensions, each at least [low] and below [high]; for the empty shape
    that is one sample. *)
Theorem rng_uniform_product_count (ty : int_type) (low high : Z)
    (shape : list Z) (rd : Z) :
  standard ty -> in_range ty low = true -> in_range ty high = true ->
  low < high ->
  Forall (fun d => 1 <= d) shape ->
  foldr Z.mul 1 shape <= int_max int32_t ->
  (exists samples,
     rng_uniform mt19937 draw ty low high shape rd = Returns samples /\
     length samples = Z.to_nat (foldr Z.mul 1 shape) /\
     Forall (fun v => low <= v < high) samples) /\
  (exists v, rng_uniform mt19937 draw ty low high [] rd = Returns [v] /\
     low <= v < high).
Proof.
  intros Hty Hlow Hhigh Hlt Hshape Hmax.
  assert (Hgen : forall shape', Forall (fun d => 1 <= d) shape' ->
    foldr Z.mul 1 shape' <= int_max int32_t ->
    exists samples,
      rng_uniform mt19937 draw ty low high shape' rd = Returns samples /\
      length samples = Z.to_nat (foldr Z.mul 1 shape') /\
      Forall (fun v => low <= v < high) samples).
  { intros shape' Hshape' Hmax'.
    pose proof (sample_count_product shape' Hshape' Hmax') as Hn.
    assert (Hpos : 1 <= foldr Z.mul 1 shape').
    { clear -Hshape'. induction Hshape'; simpl; nia. }
    destruct (rng_uniform_half_open mt19937 draw draw_closed ty low high
                shape' rd Hty Hlow Hhigh Hlt) as [Hin Hex].
    destruct (Hex _ Hn) as [samples Hret]; [lia|].
    exists samples. split; [done|].
    destruct (Hin samples Hret) as (n & Hn' & _ & Hlen & Hall).
    rewrite Hn in Hn'. injection Hn' as <-. done. }
  split; [by apply Hgen|].
  destruct (Hgen []) as (samples & Hret & Hlen & Hall);
    [constructor|unfold int_max; simpl; pow_consts; lia|].
  change (Z.to_nat (foldr Z.mul 1 [])) with 1%nat in Hlen.
  destruct samples as [|v [|? ?]]; try discriminate Hlen.
  exists v. split; [done|]. by inversion Hall.
Qed.
End RngEdges.

Lemma rng_uniform_negative_count_witness :
  rng_uniform lcg_seed lcg_draw int32_t 0 5 [3; -2] 7 = Throws LengthError /\
  rng_uniform lcg_seed lcg_draw int32_t 0 5 [2147483648] 7 = Throws LengthError /\
  rng_uniform lcg_seed lcg_draw int32_t 0 5 [-1] 7 = Throws LengthError.
Proof.
  destruct (rng_uniform_negative_count lcg_seed lcg_draw int32_t 0 5
              [3; -2] 7 (-6) 2147483648) as (Hcount & Hconv & _);
    [by right; right; left|by vm_compute..|].
  destruct (rng_uniform_negative_count lcg_seed lcg_draw int32_t 0 5
              [] 7 0 (-1)) as (_ & _ & Hdim);
    [by right; right; left|by vm_compute..|].
  split; [|split].
  - apply Hcount; by vm_compute.
  - apply Hconv; by vm_compute.
  - apply Hdim. by vm_compute.
Defined.

Lemma rng_uniform_zero_dimension_witness :
  rng_uniform lcg_seed lcg_draw int32_t 0 5 [3; 0; 4] 7 = Returns [].
Proof.
  apply rng_uniform_zero_dimension; [by right; right; left|by vm_compute..| |].
  - repeat constructor; by vm_compute.
  - apply list_elem_of_further, list_elem_of_here.
Defined.

Lemma rng_uniform_product_count_witness :
  exists samples,
    rng_uniform lcg_seed lcg_draw int32_t 0 5 [2; 3] 7 = Returns samples /\
    length samples = Z.to_nat (foldr Z.mul 1 [2; 3]) /\
    Forall (fun v => 0 <= v < 5) samples.
Proof.
  destruct (rng_uniform_product_count lcg_seed lcg_draw lcg_draw_closed
              int32_t 0 5 [2; 3] 7) as [Hsamples _];
    [by right; right; left|by vm_compute..| |by vm_compute|done].
  repeat constructor; lia.
Defined.
